(** * design_system_adapter: a shallow embedding of [DesignSystemAdapter]

    The development follows [src/design_system_adapter.py]: dominant
    colour extraction, palette generation and WCAG contrast analysis.

    - Python floats and numpy [float64] scalars are IEEE binary64 values,
      modelled by Rocq's primitive floats, so that the colour arithmetic
      evaluates bit for bit.
    - [int(x)], [x % 1.0], the built-ins [max]/[min], [format(z, "02x")],
      string slicing and [int(s, 16)] are written out below.
    - [colorsys.rgb_to_hsv] and [colorsys.hsv_to_rgb] are the functions of
      the Python standard library (Lib/colorsys.py), transcribed.
    - What the adapter obtains from third-party libraries ([cv2.resize],
      [sklearn.cluster.KMeans] and the C library's [pow] behind [**]) is a
      field of the record [Runtime]: every theorem holds for every runtime,
      unless it names an assumption on it.
    - The adapter object is the record [adapter]; its methods run in a
      state-and-exception monad [M], because they assign [self.dominant_colors]
      and [self.color_palette] and may raise. *)

From Stdlib Require Import ZArith List String Ascii Floats Uint63 Lia Bool.
From Stdlib Require Import Permutation Sorted DecimalString.
Import ListNotations.

Set Warnings "-inexact-float".
Local Open Scope string_scope.
Local Open Scope Z_scope.

(** ** Exceptions and results *)

Inductive exn : Type :=
| IndexError                 (* [l[0]] on an empty list *)
| KeyError (key : string)    (* [d[key]] on a dict without [key] *)
| ValueError                 (* [int(nan)], [int(s, 16)] on a malformed [s] *)
| OverflowError              (* [int(inf)] *)
| ZeroDivisionError          (* float division by zero *)
| LibraryError.              (* raised inside [KMeans] *)

Inductive result (A : Type) : Type :=
| Val (a : A)
| Exc (e : exn).
Arguments Val {A} a.
Arguments Exc {A} e.

Definition rbind {A B} (r : result A) (k : A -> result B) : result B :=
  match r with
  | Val a => k a
  | Exc e => Exc e
  end.

Notation "x <-- r ;; k" := (rbind r (fun x => k))
  (at level 61, r at next level, right associativity).

(** ** Python numbers *)

Module Py.

(** [float(z)] for a Python or numpy integer: the nearest binary64. *)
Definition float_of_int (z : Z) : float :=
  if Z.abs z <? 2 ^ 62
  then if z <? 0 then (- of_uint63 (Uint63.of_Z (- z)))%float
       else of_uint63 (Uint63.of_Z z)
  else SF2Prim (binary_normalize prec emax z 0 false).

(** The integer part of a finite float, rounded toward zero. *)
Definition trunc (x : float) : Z :=
  match Prim2SF x with
  | S754_finite s m e =>
      let mag := if 0 <=? e then Z.shiftl (Zpos m) e
                 else Z.shiftr (Zpos m) (- e) in
      if s then - mag else mag
  | _ => 0
  end.

(** [int(x)]: truncation; [ValueError] on NaN, [OverflowError] on an
    infinity. *)
Definition int (x : float) : result Z :=
  if is_nan x then Exc ValueError
  else if is_infinity x then Exc OverflowError
  else Val (trunc x).

(** [x % 1.0] (float_rem of CPython, npy_divmod of numpy):
    [mod = fmod(x, 1.0)]; a non-zero [mod] of the wrong sign gets [1.0]
    added; a zero [mod] becomes [+0.0]. [fmod(x, 1.0)] is [x - trunc x],
    which is exact; from [2^53] on every float is an integer. *)
Definition mod1 (x : float) : float :=
  if is_nan x || is_infinity x then nan
  else
    let m := if (9007199254740992 <=? abs x)%float then 0%float
             else (x - float_of_int (trunc x))%float in
    if (m =? 0)%float then 0%float
    else if (m <? 0)%float then (m + 1)%float
    else m.

(** The built-ins [max(a, b, c)] and [min(a, b, c)]: the first argument
    is kept until a strictly larger (smaller) one is met. *)
Definition max3 (a b c : float) : float :=
  let m := if (a <? b)%float then b else a in
  if (m <? c)%float then c else m.

Definition min3 (a b c : float) : float :=
  let m := if (b <? a)%float then b else a in
  if (c <? m)%float then c else m.

(** [max(0, min(1, x))] as [_adjust_brightness] writes it. The integers
    [0] and [1] that the built-ins may return act as [0.0] and [1.0] in
    all the arithmetic that follows. *)
Definition clamp01 (x : float) : float :=
  let lo := if (x <? 1)%float then x else 1%float in
  if (0 <? lo)%float then lo else 0%float.

(** [round(x, 2)]: the exact value of [x] is rounded to two decimals,
    ties to the even digit, and the nearest float of that decimal is
    returned; NaN and infinities are returned unchanged. From [2^46] on
    the spacing of floats exceeds 0.01 and [x] is its own rounding. *)
Definition round2 (x : float) : float :=
  if is_nan x || is_infinity x then x
  else if (70368744177664 <=? abs x)%float then x
  else
    match Prim2SF x with
    | S754_finite s m e =>
        if 0 <=? e then x
        else
          let num := Zpos m * 100 in
          let den := 2 ^ (- e) in
          let q := num / den in
          let r := num mod den in
          let n := if 2 * r <? den then q
                   else if den <? 2 * r then q + 1
                   else if Z.even q then q else q + 1 in
          let y := (float_of_int n / 100)%float in
          if s then (- y)%float else y
    | _ => x
    end.

(** Float division of Python floats raises on a zero divisor. *)
Definition div (x y : float) : result float :=
  if (y =? 0)%float then Exc ZeroDivisionError else Val (x / y)%float.

End Py.

(** ** colorsys (Python standard library) *)

Module colorsys.

Definition rgb_to_hsv (r g b : float) : float * float * float :=
  let maxc := Py.max3 r g b in
  let minc := Py.min3 r g b in
  let rangec := (maxc - minc)%float in
  let v := maxc in
  if (minc =? maxc)%float then (0%float, 0%float, v)
  else
    let s := (rangec / maxc)%float in
    let rc := ((maxc - r) / rangec)%float in
    let gc := ((maxc - g) / rangec)%float in
    let bc := ((maxc - b) / rangec)%float in
    let h := if (r =? maxc)%float then (bc - gc)%float
             else if (g =? maxc)%float then (2 + rc - bc)%float
             else (4 + gc - rc)%float in
    let h := Py.mod1 (h / 6)%float in
    (h, s, v).

Definition hsv_to_rgb (h s v : float) : result (float * float * float) :=
  if (s =? 0)%float then Val (v, v, v)
  else
    i <-- Py.int (h * 6)%float ;;
    let f := (h * 6 - Py.float_of_int i)%float in
    let p := (v * (1 - s))%float in
    let q := (v * (1 - s * f))%float in
    let t := (v * (1 - s * (1 - f)))%float in
    let i := i mod 6 in
    Val (if i =? 0 then (v, t, p)
         else if i =? 1 then (q, v, p)
         else if i =? 2 then (p, v, t)
         else if i =? 3 then (p, q, v)
         else if i =? 4 then (t, p, v)
         else (v, p, q)).

End colorsys.

(** ** Strings: [format(z, "02x")], slices and [int(s, 16)] *)

Module Str.

Definition hex_digit (d : Z) : ascii :=
  nth (Z.to_nat d)
      ["0"; "1"; "2"; "3"; "4"; "5"; "6"; "7";
       "8"; "9"; "a"; "b"; "c"; "d"; "e"; "f"]%char "0"%char.

Fixpoint hex_digits (fuel : nat) (n : Z) (acc : string) : string :=
  match fuel with
  | O => acc
  | S k =>
      let acc' := String (hex_digit (n mod 16)) acc in
      if n / 16 =? 0 then acc' else hex_digits k (n / 16) acc'
  end.

(** The lowercase hexadecimal digits of [n >= 0]; a number of [k] bits
    has at most [k] hexadecimal digits. *)
Definition hex_of_nonneg (n : Z) : string :=
  hex_digits (S (Z.to_nat (Z.log2 n))) n "".

(** [format(z, "02x")]: zero padding to width 2, the sign counted. *)
Definition format_02x (z : Z) : string :=
  if z <? 0 then "-" ++ hex_of_nonneg (- z)
  else
    let d := hex_of_nonneg z in
    if (String.length d <? 2)%nat then "0" ++ d else d.

(** [s[i:j]] for [0 <= i <= j]. *)
Definition slice (i j : nat) (s : string) : string :=
  substring i (j - i) s.

(** The white space that [int(s, 16)] skips around a literal. A character
    of a [string] is a code point below 256. In an ASCII string these are
    the characters 9 to 13 and 32 (Py_ISSPACE); a string with a character
    above 127 is first rewritten, its white space above 127 (U+0085 and
    U+00A0 below 256) becoming a space. The separators 28 to 31, white
    space for [str.isspace], are not skipped. *)
Definition is_space (c : ascii) : bool :=
  let n := nat_of_ascii c in
  ((9 <=? n) && (n <=? 13) || (n =? 32) || (n =? 133) || (n =? 160))%nat.

Definition digit_value (c : ascii) : option Z :=
  let n := Z.of_nat (nat_of_ascii c) in
  if (48 <=? n) && (n <=? 57) then Some (n - 48)
  else if (97 <=? n) && (n <=? 102) then Some (n - 87)
  else if (65 <=? n) && (n <=? 70) then Some (n - 55)
  else None.

Fixpoint lstrip (l : list ascii) : list ascii :=
  match l with
  | c :: l' => if is_space c then lstrip l' else l
  | [] => []
  end.

Definition strip (l : list ascii) : list ascii :=
  rev (lstrip (rev (lstrip l))).

(** The digits of a literal: single underscores may separate digits and
    the literal may not end with one. [seen] counts the digits read. *)
Fixpoint digits (l : list ascii) (acc : Z) (seen : nat) (prev_us : bool)
  : result Z :=
  match l with
  | [] => if prev_us || (seen =? 0)%nat then Exc ValueError else Val acc
  | c :: l' =>
      if Ascii.eqb c "_"%char
      then if prev_us then Exc ValueError else digits l' acc seen true
      else match digit_value c with
           | Some d => digits l' (16 * acc + d) (S seen) false
           | None => Exc ValueError
           end
  end.

(** [int(s, 16)] (PyLong_FromString): surrounding white space, a sign,
    an optional [0x] prefix which one underscore may follow, digits. *)
Definition int16 (s : string) : result Z :=
  let l := strip (list_ascii_of_string s) in
  let '(neg, l) :=
    match l with
    | "+"%char :: l' => (false, l')
    | "-"%char :: l' => (true, l')
    | _ => (false, l)
    end in
  let l :=
    match l with
    | "0"%char :: x :: l' =>
        if Ascii.eqb x "x"%char || Ascii.eqb x "X"%char
        then match l' with
             | "_"%char :: l'' => l''
             | _ => l'
             end
        else l
    | _ => l
    end in
  match l with
  | "_"%char :: _ => Exc ValueError
  | _ => z <-- digits l 0 0 false ;; Val (if neg then - z else z)
  end.

End Str.

(** ** Dictionaries

    A Python [dict] keeps its keys in insertion order, and the analyzer
    searches the palette in that order: an association list. *)

Module Dict.

Definition t (V : Type) : Type := list (string * V).

Fixpoint get {V} (d : t V) (k : string) : option V :=
  match d with
  | [] => None
  | (k', v) :: d' => if String.eqb k' k then Some v else get d' k
  end.

(** [d[k] = v]: an existing key keeps its place. *)
Fixpoint set {V} (d : t V) (k : string) (v : V) : t V :=
  match d with
  | [] => [(k, v)]
  | (k', v') :: d' =>
      if String.eqb k' k then (k', v) :: d' else (k', v') :: set d' k v
  end.

(** [d[k]] *)
Definition getitem {V} (d : t V) (k : string) : result V :=
  match get d k with
  | Some v => Val v
  | None => Exc (KeyError k)
  end.

Definition keys {V} (d : t V) : list string := map fst d.

End Dict.

(** ** The adapter object and what it calls *)

Definition pixel : Type := Z * Z * Z.
Definition image : Type := list (list pixel).
Definition centroid : Type := float * float * float.
Definition rgb : Type := Z * Z * Z.

(** The third-party functions the adapter calls.
    - [cv2_resize img (w, h)] is [cv2.resize(img, (w, h))].
    - [KMeans_fit n_clusters random_state n_init X] is
      [KMeans(n_clusters, random_state, n_init).fit(X)] and gives
      [(cluster_centers_, labels_)], or the exception raised.
    - [float_pow x y] is [x ** y] on floats; the adapter applies it to a
      base above [0.03928] only, where the result is a float. *)
Record Runtime : Type := {
  cv2_resize : image -> Z * Z -> image;
  KMeans_fit : Z -> Z -> Z -> list pixel -> result (list centroid * list nat);
  float_pow : float -> float -> float
}.

Record adapter : Type := {
  logo_path : string;
  logo_image : image;
  dominant_colors : list rgb;
  color_palette : Dict.t string
}.

Definition set_dominant_colors (l : list rgb) (a : adapter) : adapter :=
  {| logo_path := logo_path a; logo_image := logo_image a;
     dominant_colors := l; color_palette := color_palette a |}.

Definition set_color_palette (p : Dict.t string) (a : adapter) : adapter :=
  {| logo_path := logo_path a; logo_image := logo_image a;
     dominant_colors := dominant_colors a; color_palette := p |}.

(** *** Methods: state and exceptions *)

Inductive outcome (A : Type) : Type :=
| Ok (a : A) (self : adapter)
| Raise (e : exn) (self : adapter).
Arguments Ok {A} a self.
Arguments Raise {A} e self.

Definition M (A : Type) : Type := adapter -> outcome A.

Definition ret {A} (a : A) : M A := fun self => Ok a self.

Definition bind {A B} (m : M A) (k : A -> M B) : M B :=
  fun self =>
    match m self with
    | Ok a self' => k a self'
    | Raise e self' => Raise e self'
    end.

Definition get_self : M adapter := fun self => Ok self self.

Definition modify (f : adapter -> adapter) : M unit :=
  fun self => Ok tt (f self).

Definition lift {A} (r : result A) : M A :=
  fun self =>
    match r with
    | Val a => Ok a self
    | Exc e => Raise e self
    end.

Notation "x <- m ; k" := (bind m (fun x => k))
  (at level 61, m at next level, right associativity).
Notation "m ;; k" := (bind m (fun _ => k))
  (at level 61, right associativity).

(** ** numpy *)

Module np.

(** [np.bincount(labels)]: one count per value from [0] to the largest
    label; empty for no label. *)
Definition bincount (labels : list nat) : list Z :=
  match labels with
  | [] => []
  | _ =>
      map (fun i => Z.of_nat (count_occ Nat.eq_dec labels i))
          (seq 0 (S (fold_right Nat.max 0%nat labels)))
  end.

(** [x.astype(int)] on a float64: the C conversion to int64, which
    truncates; NaN, infinities and values out of range give [-2^63]
    (x86-64). *)
Definition astype_int (x : float) : Z :=
  if is_nan x || is_infinity x then - 2 ^ 63
  else
    let z := Py.trunc x in
    if (- 2 ^ 63 <=? z) && (z <? 2 ^ 63) then z else - 2 ^ 63.

(** [img.reshape(-1, 3)] *)
Definition reshape3 (img : image) : list pixel := List.concat img.

End np.

(** ** Built-ins on lists

    [zip(a, b)] stops at the shorter list: it is [List.combine].

    [l.sort(key=lambda x: x[1], reverse=True)]: Python's sort is stable,
    also with [reverse=True]: entries with equal keys keep their order.
    It is modelled by an insertion sort from the right that moves an entry
    past the strictly larger counts only; [sort_by_count_desc_unique]
    below shows that no other list is sorted and stable. *)
Fixpoint insert_desc {A} (x : A * Z) (l : list (A * Z)) : list (A * Z) :=
  match l with
  | [] => [x]
  | y :: l' => if snd x <? snd y then y :: insert_desc x l' else x :: l
  end.

Definition sort_by_count_desc {A} (l : list (A * Z)) : list (A * Z) :=
  fold_right insert_desc [] l.

(** ** DesignSystemAdapter *)

Record entry : Type := {
  contraste : float;
  status : string
}.

(** [for x in l: acc = body(x, acc)], stopping at the first exception. *)
Fixpoint for_each {A S} (l : list A) (body : A -> S -> result S) (acc : S)
  : result S :=
  match l with
  | [] => Val acc
  | x :: l' => acc' <-- body x acc ;; for_each l' body acc'
  end.

(** [c / 255] for an integer channel [c] (true division). *)
Definition channel (c : Z) : float := (Py.float_of_int c / 255)%float.

(** [[int(c * 255) for c in rgb]] *)
Definition to_rgb255 (c : float * float * float) : result rgb :=
  let '(x, y, z) := c in
  r <-- Py.int (x * 255)%float ;;
  g <-- Py.int (y * 255)%float ;;
  b <-- Py.int (z * 255)%float ;;
  Val (r, g, b).

(** The decimal digits of a loop index, as [f"{i}"] prints it. *)
Definition str_of_nat (i : nat) : string :=
  NilZero.string_of_uint (Nat.to_uint i).

Section Adapter.

Variable rt : Runtime.

(** Dominant colours are numpy integer arrays of three channels, as this
    method stores them. *)
Definition extract_dominant_colors (n_colors : Z) : M (list rgb) :=
  self <- get_self ;
  let resized_image := cv2_resize rt (logo_image self) (100, 100) in
  let pixels := np.reshape3 resized_image in
  kmeans <- lift (KMeans_fit rt n_colors 42 10 pixels) ;
  let '(colors, labels) := kmeans in
  let counts := np.bincount labels in
  let colors_with_counts := sort_by_count_desc (combine colors counts) in
  let dominant :=
    map (fun cc : centroid * Z =>
           let '(x, y, z) := fst cc in
           (np.astype_int x, np.astype_int y, np.astype_int z))
        colors_with_counts in
  modify (set_dominant_colors dominant) ;;
  ret dominant.

Definition _adjust_brightness (rgb_color : rgb) (factor : float)
  : result rgb :=
  let '(r, g, b) := rgb_color in
  let '(h, s, v) :=
    colorsys.rgb_to_hsv (channel r) (channel g) (channel b) in
  let v := Py.clamp01 (v + factor)%float in
  c <-- colorsys.hsv_to_rgb h s v ;;
  to_rgb255 c.

Definition _rgb_to_hex (rgb_color : rgb) : string :=
  let '(r, g, b) := rgb_color in
  "#" ++ Str.format_02x r ++ Str.format_02x g ++ Str.format_02x b.

(** [for i, color in enumerate(colors, i): palette[f"additional-{i}"] = ...] *)
Fixpoint add_additional (i : nat) (colors : list rgb) (palette : Dict.t string)
  : Dict.t string :=
  match colors with
  | [] => palette
  | color :: colors' =>
      add_additional (S i) colors'
        (Dict.set palette ("additional-" ++ str_of_nat i) (_rgb_to_hex color))
  end.

Definition generate_color_palette : M (Dict.t string) :=
  self <- get_self ;
  match dominant_colors self with
  | [] => extract_dominant_colors 5 ;; ret tt
  | _ => ret tt
  end ;;
  self <- get_self ;
  primary_color <- lift (match dominant_colors self with
                         | [] => Exc IndexError
                         | c :: _ => Val c
                         end) ;
  let '(r, g, b) := primary_color in
  let '(h, s, v) :=
    colorsys.rgb_to_hsv (channel r) (channel g) (channel b) in
  let complementary_h := Py.mod1 (h + 0.5)%float in
  complementary_rgb <- lift (colorsys.hsv_to_rgb complementary_h s v) ;
  complementary_color <- lift (to_rgb255 complementary_rgb) ;
  darker_primary <- lift (_adjust_brightness primary_color (-0.3)%float) ;
  lighter_primary <- lift (_adjust_brightness primary_color 0.3%float) ;
  let accent_h := Py.mod1 (h + 0.25)%float in
  accent_rgb <- lift (colorsys.hsv_to_rgb accent_h s v) ;
  accent_color <- lift (to_rgb255 accent_rgb) ;
  let light_gray := (240, 240, 240) in
  let medium_gray := (150, 150, 150) in
  let dark_gray := (50, 50, 50) in
  modify (set_color_palette
            [("primary", _rgb_to_hex primary_color);
             ("primary-dark", _rgb_to_hex darker_primary);
             ("primary-light", _rgb_to_hex lighter_primary);
             ("secondary", _rgb_to_hex complementary_color);
             ("accent", _rgb_to_hex accent_color);
             ("gray-light", _rgb_to_hex light_gray);
             ("gray-medium", _rgb_to_hex medium_gray);
             ("gray-dark", _rgb_to_hex dark_gray)]) ;;
  (if (1 <? List.length (dominant_colors self))%nat
   then modify (fun a =>
                  set_color_palette
                    (add_additional 1 (firstn 3 (skipn 1 (dominant_colors a)))
                                    (color_palette a)) a)
   else ret tt) ;;
  self <- get_self ;
  ret (color_palette self).

(** *** analyze_contrast *)

Definition linearize (c : float) : float :=
  if (c <=? 0.03928)%float then (c / 12.92)%float
  else float_pow rt ((c + 0.055) / 1.055)%float 2.4%float.

Definition get_luminance (hex_color : string) : result float :=
  r <-- Str.int16 (Str.slice 1 3 hex_color) ;;
  g <-- Str.int16 (Str.slice 3 5 hex_color) ;;
  b <-- Str.int16 (Str.slice 5 7 hex_color) ;;
  let r := linearize (channel r) in
  let g := linearize (channel g) in
  let b := linearize (channel b) in
  Val (0.2126 * r + 0.7152 * g + 0.0722 * b)%float.

Definition calculate_contrast (color1_hex color2_hex : string)
  : result float :=
  l1 <-- get_luminance color1_hex ;;
  l2 <-- get_luminance color2_hex ;;
  if (l2 <? l1)%float then Py.div (l1 + 0.05)%float (l2 + 0.05)%float
  else Py.div (l2 + 0.05)%float (l1 + 0.05)%float.

(** ["Bom" if contrast >= 7 else "Aceitável"] under [contrast >= 4.5],
    else ["Insuficiente"]. *)
Definition rate (contrast : float) : string :=
  if (4.5 <=? contrast)%float
  then if (7 <=? contrast)%float then "Bom" else "Aceitável"
  else "Insuficiente".

(** [[k for k, v in palette.items() if v == bg_color][0]] *)
Definition first_key_of (palette : Dict.t string) (color : string)
  : result string :=
  match filter (fun kv => String.eqb (snd kv) color) palette with
  | [] => Exc IndexError
  | kv :: _ => Val (fst kv)
  end.

(** The two loops of [analyze_contrast] over a palette. *)
Definition contrast_loops (palette : Dict.t string)
           (text_colors background_colors : list string)
  : result (Dict.t entry) :=
  for_each text_colors
    (fun text_color contrast_results =>
       gray_light <-- Dict.getitem palette "gray-light" ;;
       let text_name := if String.eqb text_color gray_light
                        then "texto-claro" else "texto-escuro" in
       for_each background_colors
         (fun bg_color contrast_results =>
            bg_name <-- first_key_of palette bg_color ;;
            contrast <-- calculate_contrast text_color bg_color ;;
            let status := rate contrast in
            Val (Dict.set contrast_results
                   (text_name ++ " sobre " ++ bg_name)
                   {| contraste := Py.round2 contrast; status := status |}))
         contrast_results)
    [].

Definition analyze_contrast : M (Dict.t entry) :=
  self <- get_self ;
  match color_palette self with
  | [] => generate_color_palette ;; ret tt
  | _ => ret tt
  end ;;
  self <- get_self ;
  let palette := color_palette self in
  gray_light <- lift (Dict.getitem palette "gray-light") ;
  gray_dark <- lift (Dict.getitem palette "gray-dark") ;
  let text_colors := [gray_light; gray_dark] in
  primary <- lift (Dict.getitem palette "primary") ;
  secondary <- lift (Dict.getitem palette "secondary") ;
  primary_light <- lift (Dict.getitem palette "primary-light") ;
  primary_dark <- lift (Dict.getitem palette "primary-dark") ;
  let background_colors :=
    [primary; secondary; primary_light; primary_dark] in
  lift (contrast_loops palette text_colors background_colors).

End Adapter.

(** ** The other methods

    [generate_scss_variables] is embedded whole. Of [visualize_palette]
    the colour of a bar's label is embedded, the one expression that
    computes; the rest draws with matplotlib. [export_scss_file] writes
    the string of [generate_scss_variables] to a file, [load_image] and
    [__init__] call OpenCV: they are outside the embedding. *)

(** The line feed that ["\n"] denotes in the Python source. *)
Definition nl : string := String (ascii_of_nat 10) EmptyString.

Definition scss_header : string :=
  "// Design System Auto-Adaptativo - Cores geradas automaticamente"
  ++ nl ++ nl.

(** [f"$color-{color_name}: {color_value};\n"] *)
Definition scss_line (kv : string * string) : string :=
  "$color-" ++ fst kv ++ ": " ++ snd kv ++ ";" ++ nl.

Definition generate_scss_variables (rt : Runtime) : M string :=
  self <- get_self ;
  match color_palette self with
  | [] => generate_color_palette rt ;; ret tt
  | _ => ret tt
  end ;;
  self <- get_self ;
  let scss_content := scss_header in
  ret (fold_left (fun scss_content kv => scss_content ++ scss_line kv)
                 (color_palette self) scss_content).

(** [sum([int(color[j:j+2], 16) for j in (1, 3, 5)])] *)
Definition channel_sum (color : string) : result Z :=
  r <-- Str.int16 (Str.slice 1 3 color) ;;
  g <-- Str.int16 (Str.slice 3 5 color) ;;
  b <-- Str.int16 (Str.slice 5 7 color) ;;
  Val (0 + r + g + b).

(** The colour of the label that [visualize_palette] writes on the bar
    of [color]: ['white' if sum(...) < 380 else 'black']. *)
Definition label_color (color : string) : result string :=
  total <-- channel_sum color ;;
  Val (if total <? 380 then "white" else "black").

(** ** A runtime to run the methods on a concrete logo

    [answering colors labels] resizes nothing and lets k-means answer
    [(colors, labels)]. Its [**] is [pow_approx], which evaluates
    [x ** 2.4] as [x * x * r * r] with [r] a fifth root of [x] found by
    Newton's iteration: close to the C library's [pow], not equal to it. *)

Fixpoint fifth_root (n : nat) (x r : float) : float :=
  match n with
  | O => r
  | S k => fifth_root k x (r - (r * r * r * r * r - x) / (5 * (r * r * r * r)))%float
  end.

Definition pow_approx (x y : float) : float :=
  let r := fifth_root 64 x 1 in (x * x * (r * r))%float.

Definition answering (colors : list centroid) (labels : list nat) : Runtime :=
  {| cv2_resize := fun img _ => img;
     KMeans_fit := fun _ _ _ _ => Val (colors, labels);
     float_pow := pow_approx |}.

(** The object that [__init__] builds around a loaded image. *)
Definition new_adapter (path : string) (img : image) : adapter :=
  {| logo_path := path; logo_image := img;
     dominant_colors := []; color_palette := [] |}.

(** A logo of one red pixel, the answer of k-means on a red logo (every
    centre is red, every pixel has label 0), and an adapter that already
    holds given dominant colours. *)
Definition red_logo : image := [[(255, 0, 0)]].

Definition red_runtime : Runtime :=
  answering [(255, 0, 0); (255, 0, 0); (255, 0, 0); (255, 0, 0); (255, 0, 0)]%float
            [0]%nat.

(** A logo of six pixels in four colours, and the answer of k-means with
    four clusters on it: the counts are 1, 2, 2 and 1. *)
Definition four_color_logo : image :=
  [[(10, 0, 0); (20, 0, 0); (20, 0, 0)];
   [(30, 0, 0); (30, 0, 0); (40, 0, 0)]].

Definition four_color_runtime : Runtime :=
  answering [(10, 0, 0); (20, 0, 0); (30, 0, 0); (40, 0, 0)]%float
            [0; 1; 1; 2; 2; 3]%nat.

Definition adapter_with (colors : list rgb) : adapter :=
  set_dominant_colors colors (new_adapter "logo.png" red_logo).

(** ** Vocabulary of the statements *)

(** The roles that [analyze_contrast] reads, in the order it reads them. *)
Definition required_roles : list string :=
  ["gray-light"; "gray-dark"; "primary"; "secondary";
   "primary-light"; "primary-dark"].

(** The keys that [generate_color_palette] always writes. *)
Definition base_roles : list string :=
  ["primary"; "primary-dark"; "primary-light"; "secondary"; "accent";
   "gray-light"; "gray-medium"; "gray-dark"].

Definition count_ge {A} (x y : A * Z) : Prop := snd y <= snd x.

Definition has_count {A} (c : Z) (x : A * Z) : bool := snd x =? c.

Definition to_int3 (cc : centroid * Z) : rgb :=
  let '(x, y, z) := fst cc in
  (np.astype_int x, np.astype_int y, np.astype_int z).

Definition in_gamut (c : rgb) : Prop :=
  let '(r, g, b) := c in
  0 <= r <= 255 /\ 0 <= g <= 255 /\ 0 <= b <= 255.

(** Hue, saturation and value of an integer colour, as the generator
    computes them. *)
Definition hsv_of (c : rgb) : float * float * float :=
  let '(r, g, b) := c in
  colorsys.rgb_to_hsv (channel r) (channel g) (channel b).

(** The four colours that [generate_color_palette] derives from the
    primary one, in the order it computes them: complementary, darker,
    lighter, accent. *)
Definition derived_colors (primary : rgb)
  : result (rgb * rgb * rgb * rgb) :=
  let '(h, s, v) := hsv_of primary in
  complementary <--
    (c <-- colorsys.hsv_to_rgb (Py.mod1 (h + 0.5)%float) s v ;; to_rgb255 c) ;;
  darker <-- _adjust_brightness primary (-0.3)%float ;;
  lighter <-- _adjust_brightness primary 0.3%float ;;
  accent <--
    (c <-- colorsys.hsv_to_rgb (Py.mod1 (h + 0.25)%float) s v ;; to_rgb255 c) ;;
  Val (complementary, darker, lighter, accent).

(** The palette written for a primary colour, its derived colours and the
    dominant colours that follow the primary one. *)
Definition palette_of (primary : rgb) (others : list rgb)
           (d : rgb * rgb * rgb * rgb) : Dict.t string :=
  let '(complementary, darker, lighter, accent) := d in
  add_additional 1 (firstn 3 others)
    [("primary", _rgb_to_hex primary);
     ("primary-dark", _rgb_to_hex darker);
     ("primary-light", _rgb_to_hex lighter);
     ("secondary", _rgb_to_hex complementary);
     ("accent", _rgb_to_hex accent);
     ("gray-light", "#f0f0f0");
     ("gray-medium", "#969696");
     ("gray-dark", "#323232")].

Definition hue (c : rgb) : float := fst (fst (hsv_of c)).
Definition saturation (c : rgb) : float := snd (fst (hsv_of c)).
Definition value (c : rgb) : float := snd (hsv_of c).

(** [hsv_to_rgb(h, s, v)] scaled to integer channels. *)
Definition rgb_of_hsv (h s v : float) : result rgb :=
  c <-- colorsys.hsv_to_rgb h s v ;; to_rgb255 c.

(** [P z] for every [0 <= z < n], by enumeration. *)
Definition all_below (n : nat) (P : Z -> bool) : bool :=
  forallb (fun k => P (Z.of_nat k)) (seq 0 n).

(** What the enumeration of the 256 x 256 pairs of channels checks: the
    order and the equality of two channels are those of the integers, and
    where the larger one differs from the smaller one it is not zero and
    the saturation they give is not zero. *)
Definition channel_pair_ok (a b : Z) : bool :=
  Bool.eqb (channel a <? channel b)%float (a <? b) &&
  Bool.eqb (channel a =? channel b)%float (a =? b) &&
  (if b <? a
   then negb (channel a =? 0)%float &&
        negb ((channel a - channel b) / channel a =? 0)%float
   else true).

(** What the enumeration of the 256 gray levels checks: the level, the
    darker and the lighter level scale to finite floats, which [int]
    accepts. *)
Definition gray_level_ok (k : Z) : bool :=
  is_finite (channel k * 255)%float &&
  is_finite (Py.clamp01 (channel k + -0.3) * 255)%float &&
  is_finite (Py.clamp01 (channel k + 0.3) * 255)%float.


(** What [analyze_contrast] does with a palette once it has one: six
    lookups, then the loops. *)
Definition report_of (rt : Runtime) (palette : Dict.t string)
  : result (Dict.t entry) :=
  gray_light <-- Dict.getitem palette "gray-light" ;;
  gray_dark <-- Dict.getitem palette "gray-dark" ;;
  primary <-- Dict.getitem palette "primary" ;;
  secondary <-- Dict.getitem palette "secondary" ;;
  primary_light <-- Dict.getitem palette "primary-light" ;;
  primary_dark <-- Dict.getitem palette "primary-dark" ;;
  contrast_loops rt palette [gray_light; gray_dark]
                 [primary; secondary; primary_light; primary_dark].

(** The first role of a list that a palette lacks. *)
Fixpoint first_missing (palette : Dict.t string) (roles : list string)
  : option string :=
  match roles with
  | [] => None
  | role :: roles' =>
      match Dict.get palette role with
      | None => Some role
      | Some _ => first_missing palette roles'
      end
  end.


(** The palette generated for the primary colour (255, 0, 0): the lighter
    primary colour is the primary colour itself. *)
Definition red_palette : Dict.t string :=
  [("primary", "#ff0000"); ("primary-dark", "#b20000");
   ("primary-light", "#ff0000"); ("secondary", "#00ffff");
   ("accent", "#7fff00"); ("gray-light", "#f0f0f0");
   ("gray-medium", "#969696"); ("gray-dark", "#323232")].


(** ** Vocabulary of the further properties *)

Definition is_lower_hex (c : ascii) : bool :=
  let n := nat_of_ascii c in
  ((48 <=? n) && (n <=? 57) || (97 <=? n) && (n <=? 102))%nat.

(** A colour string of the form [#rrggbb] in lowercase digits. *)
Definition is_hex_color (s : string) : bool :=
  match list_ascii_of_string s with
  | "#"%char :: l => (List.length l =? 6)%nat && forallb is_lower_hex l
  | _ => false
  end.

(** What the enumeration of the 256 channel values checks: the value is
    printed as two lowercase hexadecimal digits, which [int(_, 16)] reads
    back as the value. *)
Definition two_digits_ok (z : Z) : bool :=
  match Str.format_02x z with
  | String a (String b EmptyString) =>
      is_lower_hex a && is_lower_hex b &&
      match Str.int16 (String a (String b EmptyString)) with
      | Val z' => z' =? z
      | Exc _ => false
      end
  | _ => false
  end.

(** The text that [generate_scss_variables] builds for a palette: the
    header, then one line per entry, in the order of the palette. *)
Definition scss_of (palette : Dict.t string) : string :=
  scss_header ++ fold_right (fun kv rest => scss_line kv ++ rest) "" palette.

(** A k-means centre whose coordinates lie in [0, 256), as every mean of
    8-bit pixels does. *)
Definition centre_in_range (c : centroid) : bool :=
  let '(x, y, z) := c in
  forallb (fun v => (0 <=? v)%float && (v <? 256)%float) [x; y; z].

(** What the enumeration of the 256 channel values checks: channels up
    to 10 are at most 0.03928, the others are above. *)
Definition linear_branch_ok (k : Z) : bool :=
  Bool.eqb (channel k <=? 0.03928)%float (k <=? 10).

(** ** Sorting by descending count *)

Lemma insert_desc_perm {A} (x : A * Z) (l : list (A * Z)) :
  Permutation (insert_desc x l) (x :: l).
Proof.
  induction l as [|y l IH]; simpl; [reflexivity|].
  destruct (snd x <? snd y); [|reflexivity].
  rewrite IH. apply perm_swap.
Qed.

Lemma sort_by_count_desc_perm {A} (l : list (A * Z)) :
  Permutation (sort_by_count_desc l) l.
Proof.
  induction l as [|x l IH]; simpl; [constructor|].
  rewrite insert_desc_perm. now constructor.
Qed.

Lemma insert_desc_sorted {A} (x : A * Z) (l : list (A * Z)) :
  StronglySorted count_ge l -> StronglySorted count_ge (insert_desc x l).
Proof.
  induction 1 as [|y l Hl IH Hy]; simpl.
  - repeat constructor.
  - destruct (Z.ltb_spec (snd x) (snd y)) as [Hlt|Hge].
    + constructor; [exact IH|].
      rewrite Forall_forall in *. intros z Hz.
      apply (Permutation_in _ (insert_desc_perm x l)) in Hz.
      destruct Hz as [<-|Hz]; [unfold count_ge; lia | now apply Hy].
    + constructor; [now constructor|].
      constructor; [exact Hge|].
      rewrite Forall_forall in *. intros z Hz.
      specialize (Hy z Hz). unfold count_ge in *. lia.
Qed.

Lemma sort_by_count_desc_sorted {A} (l : list (A * Z)) :
  StronglySorted count_ge (sort_by_count_desc l).
Proof.
  induction l as [|x l IH]; simpl; [constructor|].
  now apply insert_desc_sorted.
Qed.

Lemma insert_desc_filter {A} (c : Z) (x : A * Z) (l : list (A * Z)) :
  filter (has_count c) (insert_desc x l) = filter (has_count c) (x :: l).
Proof.
  induction l as [|y l IH]; [reflexivity|].
  cbn [insert_desc].
  destruct (Z.ltb_spec (snd x) (snd y)) as [Hlt|Hge]; [|reflexivity].
  cbn [filter] in *. rewrite IH. unfold has_count.
  destruct (Z.eqb_spec (snd x) c), (Z.eqb_spec (snd y) c); try reflexivity; lia.
Qed.

Lemma sort_by_count_desc_stable {A} (c : Z) (l : list (A * Z)) :
  filter (has_count c) (sort_by_count_desc l) = filter (has_count c) l.
Proof.
  induction l as [|x l IH]; [reflexivity|].
  cbn [sort_by_count_desc fold_right].
  rewrite insert_desc_filter. cbn [filter]. fold (sort_by_count_desc l).
  now rewrite IH.
Qed.

(** Being sorted and keeping every class of equal counts in its order
    determines the ranking: two such rankings of the same pairs are the
    same list. A stable sort has no other result. *)
Lemma has_count_refl {A} (x : A * Z) : has_count (snd x) x = true.
Proof. unfold has_count. apply Z.eqb_refl. Qed.

Lemma ranking_unique {A} (l1 l2 : list (A * Z)) :
  StronglySorted count_ge l1 ->
  StronglySorted count_ge l2 ->
  (forall c, filter (has_count c) l1 = filter (has_count c) l2) ->
  l1 = l2.
Proof.
  intros H1. revert l2.
  induction H1 as [|x l1 Hs1 IH Hx]; intros l2 H2 Hf.
  - destruct l2 as [|y l2]; [reflexivity|].
    specialize (Hf (snd y)). cbn [filter] in Hf.
    rewrite has_count_refl in Hf. discriminate Hf.
  - destruct H2 as [|y l2 Hs2 Hy].
    + specialize (Hf (snd x)). cbn [filter] in Hf.
      rewrite has_count_refl in Hf. discriminate Hf.
    + rewrite Forall_forall in Hx, Hy.
      assert (Hxy : snd y <= snd x).
      { assert (Hin : In y (filter (has_count (snd y)) (x :: l1))).
        { rewrite Hf. cbn [filter]. rewrite has_count_refl. now left. }
        apply filter_In in Hin as [[<-|Hin] _]; [lia | exact (Hx y Hin)]. }
      assert (Hyx : snd x <= snd y).
      { assert (Hin : In x (filter (has_count (snd x)) (y :: l2))).
        { rewrite <- Hf. cbn [filter]. rewrite has_count_refl. now left. }
        apply filter_In in Hin as [[<-|Hin] _]; [lia | exact (Hy x Hin)]. }
      assert (Hc : snd x = snd y) by lia.
      pose proof (Hf (snd x)) as E. cbn [filter] in E.
      rewrite has_count_refl, Hc, has_count_refl in E.
      injection E as -> E.
      f_equal. apply IH; [exact Hs2|].
      intros c. specialize (Hf c). cbn [filter] in Hf.
      destruct (has_count c y); [now injection Hf | exact Hf].
Qed.

Lemma sort_by_count_desc_unique {A} (l ranked : list (A * Z)) :
  StronglySorted count_ge ranked ->
  (forall c, filter (has_count c) ranked = filter (has_count c) l) ->
  ranked = sort_by_count_desc l.
Proof.
  intros Hs Hf. apply ranking_unique.
  - exact Hs.
  - apply sort_by_count_desc_sorted.
  - intros c. now rewrite Hf, sort_by_count_desc_stable.
Qed.

(** ** extract_dominant_colors *)

Lemma extract_dominant_colors_eq rt n self :
  extract_dominant_colors rt n self =
  match KMeans_fit rt n 42 10
          (np.reshape3 (cv2_resize rt (logo_image self) (100, 100))) with
  | Val (colors, labels) =>
      let dominant :=
        map to_int3
            (sort_by_count_desc (combine colors (np.bincount labels))) in
      Ok dominant (set_dominant_colors dominant self)
  | Exc e => Raise e self
  end.
Proof.
  unfold extract_dominant_colors, bind, get_self, lift, modify, ret.
  destruct (KMeans_fit rt n 42 10 _) as [[colors labels]|e]; reflexivity.
Qed.

(** ** generate_color_palette *)

Lemma generate_color_palette_nonempty rt self c cs :
  dominant_colors self = c :: cs ->
  generate_color_palette rt self =
  match derived_colors c with
  | Val d => Ok (palette_of c cs d) (set_color_palette (palette_of c cs d) self)
  | Exc e => Raise e self
  end.
Proof.
  intros Hdom.
  destruct self as [path img dom pal]. cbn in Hdom. subst dom.
  unfold generate_color_palette, bind, get_self, lift, modify, ret.
  cbn [dominant_colors].
  unfold derived_colors, hsv_of. destruct c as [[r g] b].
  destruct (colorsys.rgb_to_hsv _ _ _) as [[h s] v].
  unfold rbind.
  destruct (colorsys.hsv_to_rgb (Py.mod1 (h + 0.5)) s v) as [c1|e]; [|reflexivity].
  destruct (to_rgb255 c1) as [sec|e]; [|reflexivity].
  destruct (_adjust_brightness (r, g, b) (-0.3)) as [dark|e]; [|reflexivity].
  destruct (_adjust_brightness (r, g, b) 0.3) as [light|e]; [|reflexivity].
  destruct (colorsys.hsv_to_rgb (Py.mod1 (h + 0.25)) s v) as [c2|e]; [|reflexivity].
  destruct (to_rgb255 c2) as [acc|e]; [|reflexivity].
  destruct cs as [|c' cs']; reflexivity.
Qed.

Lemma extract_dominant_colors_state rt n self dominant self' :
  extract_dominant_colors rt n self = Ok dominant self' ->
  self' = set_dominant_colors dominant self.
Proof.
  rewrite extract_dominant_colors_eq.
  destruct (KMeans_fit rt n 42 10 _) as [[colors labels]|e]; [|discriminate].
  cbv zeta. intros H. now inversion H.
Qed.

Lemma extract_dominant_colors_raise rt n self e self' :
  extract_dominant_colors rt n self = Raise e self' -> self' = self.
Proof.
  rewrite extract_dominant_colors_eq.
  destruct (KMeans_fit rt n 42 10 _) as [[colors labels]|e']; [discriminate|].
  intros H. now inversion H.
Qed.

(** The number of colours returned is the number of k-means centres or
    the number of counts, whichever is smaller; there is one count per
    label value up to the largest label in use. How this number relates
    to the distinct colours of the image is decided inside k-means. *)
Lemma extract_dominant_colors_length rt n self dominant self' :
  extract_dominant_colors rt n self = Ok dominant self' ->
  exists colors labels,
    KMeans_fit rt n 42 10
      (np.reshape3 (cv2_resize rt (logo_image self) (100, 100)))
    = Val (colors, labels) /\
    List.length dominant
    = Nat.min (List.length colors) (List.length (np.bincount labels)) /\
    List.length (np.bincount labels)
    = match labels with
      | [] => 0%nat
      | _ => S (fold_right Nat.max 0%nat labels)
      end.
Proof.
  rewrite extract_dominant_colors_eq.
  destruct (KMeans_fit rt n 42 10 _) as [[colors labels]|e]; [|discriminate].
  cbv zeta. intros [= <- _]. exists colors, labels.
  split; [reflexivity|]. split.
  - rewrite length_map.
    rewrite (Permutation_length (sort_by_count_desc_perm _)).
    apply length_combine.
  - unfold np.bincount. destruct labels; [reflexivity|].
    now rewrite length_map, length_seq.
Qed.

(** C7: whenever extraction returns, the colours it returns are those of
    the k-means centres paired with their occurrence counts and ranked:
    the ranking is a permutation of the pairs, its counts never increase
    from one entry to the next, and the pairs of any one count appear in
    the order k-means gave them. *)
Theorem extract_dominant_colors_ranked rt n self dominant self' :
  extract_dominant_colors rt n self = Ok dominant self' ->
  exists colors labels ranked,
    KMeans_fit rt n 42 10
      (np.reshape3 (cv2_resize rt (logo_image self) (100, 100)))
    = Val (colors, labels) /\
    dominant = map to_int3 ranked /\
    Permutation ranked (combine colors (np.bincount labels)) /\
    StronglySorted count_ge ranked /\
    forall c, filter (has_count c) ranked
              = filter (has_count c) (combine colors (np.bincount labels)).
Proof.
  rewrite extract_dominant_colors_eq.
  destruct (KMeans_fit rt n 42 10 _) as [[colors labels]|e]; [|discriminate].
  cbv zeta. intros H. inversion H; subst; clear H.
  exists colors, labels,
    (sort_by_count_desc (combine colors (np.bincount labels))).
  repeat split.
  - apply sort_by_count_desc_perm.
  - apply sort_by_count_desc_sorted.
  - intros c. apply sort_by_count_desc_stable.
Qed.

(** Four centres with the counts 1, 2, 2, 1: the two centres of count 2
    come first, then the two of count 1, each pair in its k-means order. *)
Lemma extract_dominant_colors_ranked_witness :
  exists colors labels ranked,
    KMeans_fit four_color_runtime 4 42 10
      (np.reshape3 (cv2_resize four_color_runtime
         (logo_image (new_adapter "logo.png" four_color_logo)) (100, 100)))
    = Val (colors, labels) /\
    [(20, 0, 0); (30, 0, 0); (10, 0, 0); (40, 0, 0)] = map to_int3 ranked /\
    Permutation ranked (combine colors (np.bincount labels)) /\
    StronglySorted count_ge ranked /\
    forall c, filter (has_count c) ranked
              = filter (has_count c) (combine colors (np.bincount labels)).
Proof.
  apply (extract_dominant_colors_ranked four_color_runtime 4
           (new_adapter "logo.png" four_color_logo) _
           (set_dominant_colors
              [(20, 0, 0); (30, 0, 0); (10, 0, 0); (40, 0, 0)]
              (new_adapter "logo.png" four_color_logo))).
  vm_compute. reflexivity.
Defined.

(** C9 (as the code has it): extraction assigns its result to
    [self.dominant_colors] and touches nothing else; when it raises, the
    object is unchanged. The result is the one a fresh adapter around the
    same image gives: it depends on the image, [n_colors] and the
    libraries only. *)
Theorem extract_dominant_colors_frame rt n self :
  extract_dominant_colors rt n self =
  match extract_dominant_colors rt n (new_adapter "" (logo_image self)) with
  | Ok dominant _ => Ok dominant (set_dominant_colors dominant self)
  | Raise e _ => Raise e self
  end.
Proof.
  rewrite !extract_dominant_colors_eq. cbn [logo_image new_adapter].
  destruct (KMeans_fit rt n 42 10 _) as [[colors labels]|e]; reflexivity.
Qed.

(** C9, as stated, fails: extraction on a new adapter leaves an adapter
    whose [dominant_colors] differ from before. *)
Lemma extract_dominant_colors_mutates :
  extract_dominant_colors red_runtime 5 (new_adapter "logo.png" red_logo)
  = Ok [(255, 0, 0)] (adapter_with [(255, 0, 0)]) /\
  adapter_with [(255, 0, 0)] <> new_adapter "logo.png" red_logo.
Proof.
  split; [vm_compute; reflexivity|].
  intros H. apply (f_equal dominant_colors) in H. discriminate H.
Qed.

Lemma generate_color_palette_empty rt self :
  dominant_colors self = [] ->
  generate_color_palette rt self =
  match extract_dominant_colors rt 5 self with
  | Ok [] self' => Raise IndexError self'
  | Ok (_ :: _) self' => generate_color_palette rt self'
  | Raise e self' => Raise e self'
  end.
Proof.
  intros Hdom.
  unfold generate_color_palette at 1. unfold bind at 1. unfold get_self at 1.
  rewrite Hdom. unfold bind at 1. unfold bind at 1.
  destruct (extract_dominant_colors rt 5 self) as [d s1|e s1] eqn:Hex;
    [|reflexivity].
  apply extract_dominant_colors_state in Hex. subst s1.
  unfold ret at 1. unfold bind at 1. unfold get_self at 1.
  destruct d as [|c cs].
  - reflexivity.
  - unfold generate_color_palette, bind, get_self, ret. reflexivity.
Qed.

(** C1 (as the code has it): with no dominant colour stored, generation
    first runs extraction with five clusters; it raises what extraction
    raises, raises [IndexError] when extraction found no colour, and
    otherwise gives the palette of the first colour that extraction
    stored (or raises what the float conversions of that palette raise).
    No exception is raised for the empty list itself. *)
Theorem generate_color_palette_extracts_first rt self :
  dominant_colors self = [] ->
  match extract_dominant_colors rt 5 self with
  | Raise e self' => generate_color_palette rt self = Raise e self'
  | Ok [] self' => generate_color_palette rt self = Raise IndexError self'
  | Ok (c :: cs) self' =>
      dominant_colors self' = c :: cs /\
      generate_color_palette rt self =
      match derived_colors c with
      | Val d =>
          Ok (palette_of c cs d) (set_color_palette (palette_of c cs d) self')
      | Exc e => Raise e self'
      end
  end.
Proof.
  intros Hdom. rewrite (generate_color_palette_empty rt self Hdom).
  destruct (extract_dominant_colors rt 5 self) as [[|c cs] s1|e s1] eqn:Hex;
    try reflexivity.
  apply extract_dominant_colors_state in Hex.
  assert (Hs1 : dominant_colors s1 = c :: cs) by (now subst s1).
  split; [exact Hs1|].
  exact (generate_color_palette_nonempty rt s1 c cs Hs1).
Qed.

Lemma generate_color_palette_extracts_first_witness :
  dominant_colors (adapter_with [(255, 0, 0)]) = [(255, 0, 0)] /\
  generate_color_palette red_runtime (new_adapter "logo.png" red_logo) =
  match derived_colors (255, 0, 0) with
  | Val d =>
      Ok (palette_of (255, 0, 0) [] d)
         (set_color_palette (palette_of (255, 0, 0) [] d)
                            (adapter_with [(255, 0, 0)]))
  | Exc e => Raise e (adapter_with [(255, 0, 0)])
  end.
Proof.
  exact (generate_color_palette_extracts_first red_runtime
           (new_adapter "logo.png" red_logo) eq_refl).
Defined.

(** C1, as stated, fails: generation on an adapter without dominant
    colours returns a palette. *)
Lemma generate_color_palette_empty_returns :
  dominant_colors (new_adapter "logo.png" red_logo) = [] /\
  generate_color_palette red_runtime (new_adapter "logo.png" red_logo)
  = Ok [("primary", "#ff0000"); ("primary-dark", "#b20000");
        ("primary-light", "#ff0000"); ("secondary", "#00ffff");
        ("accent", "#7fff00"); ("gray-light", "#f0f0f0");
        ("gray-medium", "#969696"); ("gray-dark", "#323232")]
       (set_color_palette
          [("primary", "#ff0000"); ("primary-dark", "#b20000");
           ("primary-light", "#ff0000"); ("secondary", "#00ffff");
           ("accent", "#7fff00"); ("gray-light", "#f0f0f0");
           ("gray-medium", "#969696"); ("gray-dark", "#323232")]
          (adapter_with [(255, 0, 0)])).
Proof. split; [reflexivity | vm_compute; reflexivity]. Qed.

(** ** Channels, by enumeration *)

Lemma all_below_spec n P :
  all_below n P = true -> forall z, 0 <= z < Z.of_nat n -> P z = true.
Proof.
  unfold all_below. rewrite forallb_forall. intros H z Hz.
  specialize (H (Z.to_nat z)). rewrite Z2Nat.id in H by lia.
  apply H, in_seq. lia.
Qed.

Lemma channel_pairs :
  all_below 256 (fun a => all_below 256 (fun b => channel_pair_ok a b)) = true.
Proof. vm_compute. reflexivity. Qed.

Lemma channel_pair a b :
  0 <= a <= 255 -> 0 <= b <= 255 -> channel_pair_ok a b = true.
Proof.
  intros Ha Hb.
  apply (all_below_spec 256 (fun b => channel_pair_ok a b)); [|lia].
  apply (all_below_spec 256
           (fun a => all_below 256 (fun b => channel_pair_ok a b)));
    [exact channel_pairs | lia].
Qed.

Lemma channel_ltb a b :
  0 <= a <= 255 -> 0 <= b <= 255 ->
  (channel a <? channel b)%float = (a <? b).
Proof.
  intros Ha Hb. pose proof (channel_pair a b Ha Hb) as H.
  unfold channel_pair_ok in H.
  apply andb_prop in H as [H _]. apply andb_prop in H as [H _].
  now apply Bool.eqb_prop.
Qed.

Lemma channel_eqb a b :
  0 <= a <= 255 -> 0 <= b <= 255 ->
  (channel a =? channel b)%float = (a =? b).
Proof.
  intros Ha Hb. pose proof (channel_pair a b Ha Hb) as H.
  unfold channel_pair_ok in H.
  apply andb_prop in H as [H _]. apply andb_prop in H as [_ H].
  now apply Bool.eqb_prop.
Qed.

Lemma channel_saturated a b :
  0 <= a <= 255 -> 0 <= b <= 255 -> b < a ->
  (channel a =? 0)%float = false /\
  ((channel a - channel b) / channel a =? 0)%float = false.
Proof.
  intros Ha Hb Hlt. pose proof (channel_pair a b Ha Hb) as H.
  unfold channel_pair_ok in H.
  apply andb_prop in H as [_ H].
  destruct (Z.ltb_spec b a); [|lia].
  apply andb_prop in H as [H1 H2].
  now rewrite negb_true_iff in H1, H2.
Qed.

Lemma max3_channel r g b :
  0 <= r <= 255 -> 0 <= g <= 255 -> 0 <= b <= 255 ->
  Py.max3 (channel r) (channel g) (channel b)
  = channel (Z.max (Z.max r g) b).
Proof.
  intros Hr Hg Hb. unfold Py.max3.
  rewrite (channel_ltb r g Hr Hg).
  destruct (Z.ltb_spec r g).
  - rewrite (channel_ltb g b Hg Hb).
    destruct (Z.ltb_spec g b); f_equal; lia.
  - rewrite (channel_ltb r b Hr Hb).
    destruct (Z.ltb_spec r b); f_equal; lia.
Qed.

Lemma min3_channel r g b :
  0 <= r <= 255 -> 0 <= g <= 255 -> 0 <= b <= 255 ->
  Py.min3 (channel r) (channel g) (channel b)
  = channel (Z.min (Z.min r g) b).
Proof.
  intros Hr Hg Hb. unfold Py.min3.
  rewrite (channel_ltb g r Hg Hr).
  destruct (Z.ltb_spec g r).
  - rewrite (channel_ltb b g Hb Hg).
    destruct (Z.ltb_spec b g); f_equal; lia.
  - rewrite (channel_ltb b r Hb Hr).
    destruct (Z.ltb_spec b r); f_equal; lia.
Qed.

(** A colour of the gamut whose saturation or value is zero is a gray,
    and [rgb_to_hsv] gives a gray the hue [0.0]. *)
Lemma hsv_of_unsaturated c :
  in_gamut c ->
  ((saturation c =? 0) || (value c =? 0))%float = true ->
  hsv_of c = (0%float, 0%float, value c).
Proof.
  destruct c as [[r g] b]. intros (Hr & Hg & Hb).
  unfold saturation, value, hsv_of, colorsys.rgb_to_hsv.
  rewrite (max3_channel r g b Hr Hg Hb), (min3_channel r g b Hr Hg Hb).
  set (hi := Z.max (Z.max r g) b). set (lo := Z.min (Z.min r g) b).
  assert (Hhi : 0 <= hi <= 255) by (subst hi; lia).
  assert (Hlo : 0 <= lo <= 255) by (subst lo; lia).
  rewrite (channel_eqb lo hi Hlo Hhi).
  destruct (Z.eqb_spec lo hi) as [Heq|Hne]; [reflexivity|].
  cbn [fst snd]. intros H.
  destruct (channel_saturated hi lo Hhi Hlo) as [H1 H2]; [subst hi lo; lia|].
  rewrite H1, H2 in H. discriminate H.
Qed.

Lemma int_finite x : is_finite x = true -> Py.int x = Val (Py.trunc x).
Proof.
  unfold is_finite, Py.int. rewrite negb_true_iff, orb_false_iff.
  now intros [-> ->].
Qed.

Lemma gray_levels : all_below 256 gray_level_ok = true.
Proof. vm_compute. reflexivity. Qed.

Lemma rgb_of_hsv_gray h v :
  is_finite (v * 255)%float = true ->
  rgb_of_hsv h 0 v
  = Val (Py.trunc (v * 255), Py.trunc (v * 255), Py.trunc (v * 255)).
Proof.
  intros Hv. unfold rgb_of_hsv, colorsys.hsv_to_rgb.
  change (0 =? 0)%float with true. cbn [rbind to_rgb255].
  rewrite (int_finite _ Hv). reflexivity.
Qed.

Lemma value_channel c :
  in_gamut c -> exists k, 0 <= k <= 255 /\ value c = channel k.
Proof.
  destruct c as [[r g] b]. intros (Hr & Hg & Hb).
  exists (Z.max (Z.max r g) b). split; [lia|].
  unfold value, hsv_of, colorsys.rgb_to_hsv.
  rewrite (max3_channel r g b Hr Hg Hb).
  destruct (_ =? _)%float; reflexivity.
Qed.

(** ** Dictionaries *)

Lemma get_set_other {V} (d : Dict.t V) k k' v :
  String.eqb k k' = false -> Dict.get (Dict.set d k v) k' = Dict.get d k'.
Proof.
  intros Hk. induction d as [|[k0 v0] d IH]; cbn.
  - now rewrite Hk.
  - destruct (String.eqb_spec k0 k) as [->|Hne]; cbn.
    + now rewrite Hk.
    + now rewrite IH.
Qed.

Lemma additional_key_neq i k :
  prefix "additional-" k = false ->
  String.eqb ("additional-" ++ str_of_nat i) k = false.
Proof.
  intros Hp. destruct (String.eqb_spec ("additional-" ++ str_of_nat i) k)
    as [<-|]; [|reflexivity].
  exfalso. revert Hp. generalize (str_of_nat i). intros x.
  cbn. repeat (rewrite ?Ascii.eqb_refl; cbn). destruct x; discriminate.
Qed.

Lemma get_add_additional i colors d k :
  prefix "additional-" k = false ->
  Dict.get (add_additional i colors d) k = Dict.get d k.
Proof.
  intros Hp. revert i d.
  induction colors as [|c colors IH]; intros i d; cbn; [reflexivity|].
  rewrite IH. apply get_set_other. now apply additional_key_neq.
Qed.

Lemma get_palette_of c cs d k :
  prefix "additional-" k = false ->
  Dict.get (palette_of c cs d) k =
  let '(complementary, darker, lighter, accent) := d in
  Dict.get [("primary", _rgb_to_hex c);
            ("primary-dark", _rgb_to_hex darker);
            ("primary-light", _rgb_to_hex lighter);
            ("secondary", _rgb_to_hex complementary);
            ("accent", _rgb_to_hex accent);
            ("gray-light", "#f0f0f0");
            ("gray-medium", "#969696");
            ("gray-dark", "#323232")] k.
Proof.
  intros Hp. destruct d as [[[sec dark] light] acc]. unfold palette_of.
  now apply get_add_additional.
Qed.

(** ** Derived colours *)

Lemma hsv_of_eta c : hsv_of c = (hue c, saturation c, value c).
Proof. unfold hue, saturation, value. now destruct (hsv_of c) as [[h s] v]. Qed.

Lemma _adjust_brightness_eq c factor :
  _adjust_brightness c factor
  = rgb_of_hsv (hue c) (saturation c) (Py.clamp01 (value c + factor)%float).
Proof.
  unfold hue, saturation, value, hsv_of, _adjust_brightness, rgb_of_hsv.
  destruct c as [[r g] b].
  now destruct (colorsys.rgb_to_hsv _ _ _) as [[h s] v].
Qed.

Lemma derived_colors_eq c :
  derived_colors c =
  (complementary <--
     rgb_of_hsv (Py.mod1 (hue c + 0.5)%float) (saturation c) (value c) ;;
   darker <--
     rgb_of_hsv (hue c) (saturation c) (Py.clamp01 (value c + -0.3)%float) ;;
   lighter <--
     rgb_of_hsv (hue c) (saturation c) (Py.clamp01 (value c + 0.3)%float) ;;
   accent <--
     rgb_of_hsv (Py.mod1 (hue c + 0.25)%float) (saturation c) (value c) ;;
   Val (complementary, darker, lighter, accent)).
Proof.
  unfold derived_colors. rewrite !_adjust_brightness_eq.
  rewrite (hsv_of_eta c). reflexivity.
Qed.

(** C8: for a primary colour of the gamut whose saturation or value is
    zero, the hue that generation works with is [0.0]: the secondary and
    the accent colour are derived from the hues [(0 + 0.5) % 1] and
    [(0 + 0.25) % 1], the darker and the lighter primary from the hue [0],
    and generation returns the palette of these colours. *)
Theorem generate_color_palette_gray rt self c cs :
  dominant_colors self = c :: cs ->
  in_gamut c ->
  ((saturation c =? 0) || (value c =? 0))%float = true ->
  hue c = 0%float /\
  exists complementary darker lighter accent,
    rgb_of_hsv (Py.mod1 (0 + 0.5)%float) (saturation c) (value c)
    = Val complementary /\
    rgb_of_hsv 0 (saturation c) (Py.clamp01 (value c + -0.3)%float)
    = Val darker /\
    rgb_of_hsv 0 (saturation c) (Py.clamp01 (value c + 0.3)%float)
    = Val lighter /\
    rgb_of_hsv (Py.mod1 (0 + 0.25)%float) (saturation c) (value c)
    = Val accent /\
    generate_color_palette rt self
    = Ok (palette_of c cs (complementary, darker, lighter, accent))
         (set_color_palette
            (palette_of c cs (complementary, darker, lighter, accent)) self).
Proof.
  intros Hdom Hc Hgray.
  pose proof (hsv_of_unsaturated c Hc Hgray) as Hhsv.
  assert (Hh : hue c = 0%float) by (unfold hue; now rewrite Hhsv).
  assert (Hs : saturation c = 0%float) by (unfold saturation; now rewrite Hhsv).
  split; [exact Hh|].
  destruct (value_channel c Hc) as (k & Hk & Hv).
  pose proof (all_below_spec 256 gray_level_ok gray_levels k ltac:(lia)) as Hok.
  unfold gray_level_ok in Hok.
  apply andb_prop in Hok as [Hok H3]. apply andb_prop in Hok as [H1 H2].
  rewrite (generate_color_palette_nonempty rt self c cs Hdom).
  rewrite derived_colors_eq, Hh, Hs, Hv.
  rewrite !rgb_of_hsv_gray by assumption.
  cbn [rbind]. do 4 eexists. repeat split; reflexivity.
Qed.

Lemma generate_color_palette_gray_witness :
  hue (128, 128, 128) = 0%float /\
  exists complementary darker lighter accent,
    rgb_of_hsv (Py.mod1 (0 + 0.5)%float)
               (saturation (128, 128, 128)) (value (128, 128, 128))
    = Val complementary /\
    rgb_of_hsv 0 (saturation (128, 128, 128))
               (Py.clamp01 (value (128, 128, 128)%Z + -0.3)%float)
    = Val darker /\
    rgb_of_hsv 0 (saturation (128, 128, 128))
               (Py.clamp01 (value (128, 128, 128)%Z + 0.3)%float)
    = Val lighter /\
    rgb_of_hsv (Py.mod1 (0 + 0.25)%float)
               (saturation (128, 128, 128)) (value (128, 128, 128))
    = Val accent /\
    generate_color_palette red_runtime (adapter_with [(128, 128, 128)])
    = Ok (palette_of (128, 128, 128) []
            (complementary, darker, lighter, accent))
         (set_color_palette
            (palette_of (128, 128, 128) []
               (complementary, darker, lighter, accent))
            (adapter_with [(128, 128, 128)])).
Proof.
  apply (generate_color_palette_gray red_runtime
           (adapter_with [(128, 128, 128)]) (128, 128, 128) []).
  - reflexivity.
  - cbn. lia.
  - vm_compute. reflexivity.
Defined.






(** ** Order of floats *)

Lemma SFcompare_Lt_Gt a b :
  SFcompare a b = Some Lt -> SFcompare b a = Some Gt.
Proof.
  destruct a as [sa|sa| |sa ma ea], b as [sb|sb| |sb mb eb]; cbn;
    try discriminate; try (destruct sa; discriminate);
    try (destruct sb; discriminate);
    try (destruct sa, sb; (discriminate || reflexivity)).
  change (PosDef.Pos.compare_cont Eq ma mb) with (Pos.compare ma mb).
  change (PosDef.Pos.compare_cont Eq mb ma) with (Pos.compare mb ma).
  rewrite (Z.compare_antisym ea eb), (Pos.compare_antisym ma mb).
  destruct sa, sb; try discriminate; try reflexivity;
    destruct (Z.compare ea eb); cbn; try discriminate; try reflexivity;
    destruct (Pos.compare ma mb); cbn; (discriminate || reflexivity).
Qed.




(** ** analyze_contrast *)

Lemma analyze_contrast_eq rt self :
  analyze_contrast rt self =
  match color_palette self with
  | [] =>
      match generate_color_palette rt self with
      | Ok _ self' => lift (report_of rt (color_palette self')) self'
      | Raise e self' => Raise e self'
      end
  | _ :: _ => lift (report_of rt (color_palette self)) self
  end.
Proof.
  assert (Hbody : forall s,
    (self0 <- get_self ;
     let palette := color_palette self0 in
     gray_light <- lift (Dict.getitem palette "gray-light") ;
     gray_dark <- lift (Dict.getitem palette "gray-dark") ;
     let text_colors := [gray_light; gray_dark] in
     primary <- lift (Dict.getitem palette "primary") ;
     secondary <- lift (Dict.getitem palette "secondary") ;
     primary_light <- lift (Dict.getitem palette "primary-light") ;
     primary_dark <- lift (Dict.getitem palette "primary-dark") ;
     let background_colors :=
       [primary; secondary; primary_light; primary_dark] in
     lift (contrast_loops rt palette text_colors background_colors)) s
    = lift (report_of rt (color_palette s)) s).
  { intros s. unfold bind, get_self, lift, report_of, rbind.
    repeat match goal with
           | |- context [Dict.getitem ?p ?k] =>
               destruct (Dict.getitem p k); [|reflexivity]
           end.
    reflexivity. }
  unfold analyze_contrast. unfold bind at 1. unfold get_self at 1.
  unfold bind at 1.
  destruct (color_palette self) as [|kv pal] eqn:Hpal.
  - unfold bind at 1.
    destruct (generate_color_palette rt self) as [p s1|e s1]; [|reflexivity].
    unfold ret at 1. apply Hbody.
  - unfold ret at 1. rewrite Hbody, Hpal. reflexivity.
Qed.

Lemma for_each_invariant {A S} (I : S -> Prop) (l : list A)
      (body : A -> S -> result S) :
  (forall x acc acc', In x l -> I acc -> body x acc = Val acc' -> I acc') ->
  forall acc r, I acc -> for_each l body acc = Val r -> I r.
Proof.
  induction l as [|x l IH]; intros Hbody acc r Hacc; cbn.
  - now intros [= <-].
  - destruct (body x acc) as [acc'|e] eqn:Hx; cbn; [|discriminate].
    apply IH.
    + intros y a a' Hy. apply Hbody. now right.
    + apply (Hbody x acc acc'); [now left | exact Hacc | exact Hx].
Qed.

Lemma in_set {V} (d : Dict.t V) k v k' v' :
  In (k', v') (Dict.set d k v) -> (k' = k /\ v' = v) \/ In (k', v') d.
Proof.
  induction d as [|[k0 v0] d IH]; cbn.
  - intros [[= <- <-]|[]]. now left.
  - destruct (String.eqb_spec k0 k) as [->|Hne]; cbn.
    + intros [[= <- <-]|H]; [now left | right; now right].
    + intros [H|H]; [right; now left|].
      destruct (IH H) as [?|?]; [now left | right; now right].
Qed.


Lemma getitem_val {V} (d : Dict.t V) k v :
  Dict.getitem d k = Val v -> Dict.get d k = Some v.
Proof. unfold Dict.getitem. destruct (Dict.get d k); now intros [= <-]. Qed.


Lemma analyze_contrast_ok rt self report self' :
  analyze_contrast rt self = Ok report self' ->
  report_of rt (color_palette self') = Val report.
Proof.
  rewrite analyze_contrast_eq. unfold lift.
  destruct (color_palette self) as [|kv pal] eqn:Hpal.
  - destruct (generate_color_palette rt self) as [p s1|e s1]; [|discriminate].
    destruct (report_of rt (color_palette s1)) as [r|] eqn:Hr; [|discriminate].
    intros [= <- <-]. exact Hr.
  - destruct (report_of rt (kv :: pal)) as [r|] eqn:Hr; [|discriminate].
    intros [= <- <-]. now rewrite Hpal.
Qed.



(** The rating is of the unrounded ratio: 6.996 is reported as 7.0 and
    rated acceptable. *)
Example rate_before_rounding :
  Py.round2 6.996 = 7%float /\ rate 6.996 = "Aceitável" /\ rate 7 = "Bom".
Proof. vm_compute. repeat split. Qed.

Lemma first_missing_spec palette roles :
  match first_missing palette roles with
  | Some role => In role roles /\ Dict.get palette role = None
  | None => forall role, In role roles -> Dict.get palette role <> None
  end.
Proof.
  induction roles as [|r roles IH]; cbn; [intros ? []|].
  destruct (Dict.get palette r) eqn:Hr.
  - destruct (first_missing palette roles).
    + destruct IH. split; [now right | assumption].
    + intros role [<-|H]; [congruence | now apply IH].
  - split; [now left | assumption].
Qed.

Lemma report_of_missing rt palette role :
  first_missing palette required_roles = Some role ->
  report_of rt palette = Exc (KeyError role).
Proof.
  unfold report_of, required_roles, first_missing, Dict.getitem.
  repeat match goal with
         | |- context [Dict.get palette ?k] =>
             destruct (Dict.get palette k);
             [cbn [rbind] | now intros [= <-]]
         end.
  discriminate.
Qed.

(** C3 (as the code has it): on a palette that is not empty and lacks one
    of the six roles the analysis reads, the analysis raises [KeyError]
    for the first role it does not find, in the order gray-light,
    gray-dark, primary, secondary, primary-light, primary-dark, and leaves
    the adapter as it was. *)
Theorem analyze_contrast_missing_role rt self role :
  color_palette self <> [] ->
  In role required_roles ->
  Dict.get (color_palette self) role = None ->
  exists missing,
    first_missing (color_palette self) required_roles = Some missing /\
    In missing required_roles /\
    Dict.get (color_palette self) missing = None /\
    analyze_contrast rt self = Raise (KeyError missing) self.
Proof.
  intros Hne Hrole Hget.
  pose proof (first_missing_spec (color_palette self) required_roles) as Hf.
  destruct (first_missing (color_palette self) required_roles)
    as [missing|] eqn:Hm.
  - exists missing. destruct Hf as [Hin Hnone].
    split; [reflexivity|]. split; [exact Hin|]. split; [exact Hnone|].
    rewrite analyze_contrast_eq.
    destruct (color_palette self) as [|kv pal]; [congruence|].
    now rewrite (report_of_missing rt _ _ Hm).
  - exfalso. exact (Hf role Hrole Hget).
Qed.

Lemma analyze_contrast_missing_role_witness :
  exists missing,
    first_missing
      (color_palette
         (set_color_palette [("primary", "#ff0000"); ("gray-light", "#f0f0f0");
                             ("gray-dark", "#323232")]
                            (adapter_with [(255, 0, 0)])))
      required_roles = Some missing /\
    In missing required_roles /\
    Dict.get
      (color_palette
         (set_color_palette [("primary", "#ff0000"); ("gray-light", "#f0f0f0");
                             ("gray-dark", "#323232")]
                            (adapter_with [(255, 0, 0)]))) missing = None /\
    analyze_contrast red_runtime
      (set_color_palette [("primary", "#ff0000"); ("gray-light", "#f0f0f0");
                          ("gray-dark", "#323232")]
                         (adapter_with [(255, 0, 0)]))
    = Raise (KeyError missing)
        (set_color_palette [("primary", "#ff0000"); ("gray-light", "#f0f0f0");
                            ("gray-dark", "#323232")]
                           (adapter_with [(255, 0, 0)])).
Proof.
  apply (analyze_contrast_missing_role red_runtime
           (set_color_palette [("primary", "#ff0000"); ("gray-light", "#f0f0f0");
                               ("gray-dark", "#323232")]
                              (adapter_with [(255, 0, 0)]))
           "secondary").
  - discriminate.
  - cbn. tauto.
  - reflexivity.
Defined.

(** C3, as stated, fails: the empty palette lacks every role, and the
    analysis of an adapter with the empty palette returns a report. *)
Lemma analyze_contrast_empty_palette_returns :
  Dict.get (color_palette (adapter_with [(255, 0, 0)])) "secondary" = None /\
  exists report self',
    analyze_contrast red_runtime (adapter_with [(255, 0, 0)])
    = Ok report self'.
Proof.
  split; [reflexivity|]. do 2 eexists. vm_compute. reflexivity.
Qed.

(** C2 (the code at the failing input): for the primary colour
    (255, 0, 0) the lighter primary colour is the primary colour again,
    the analysis names every background after the first role of its
    colour, and whenever it returns, the report has six entries and none
    for primary-light. *)
Theorem analyze_contrast_red_keys rt self report self' :
  dominant_colors self = [(255, 0, 0)] ->
  color_palette self = [] ->
  analyze_contrast rt self = Ok report self' ->
  color_palette self' = red_palette /\
  Dict.keys report =
  ["texto-claro sobre primary"; "texto-claro sobre secondary";
   "texto-claro sobre primary-dark"; "texto-escuro sobre primary";
   "texto-escuro sobre secondary"; "texto-escuro sobre primary-dark"].
Proof.
  intros Hdom Hpal Hok.
  pose proof (analyze_contrast_ok rt self report self' Hok) as Hr.
  assert (Hp : color_palette self' = red_palette).
  { rewrite analyze_contrast_eq, Hpal in Hok.
    rewrite (generate_color_palette_nonempty rt self _ _ Hdom) in Hok.
    change (derived_colors (255, 0, 0))
      with (Val ((0, 255, 255), (178, 0, 0), (255, 0, 0), (127, 255, 0)))
      in Hok.
    cbv iota in Hok. unfold lift in Hok.
    destruct (report_of rt _); [|discriminate].
    injection Hok as _ <-. reflexivity. }
  split; [exact Hp|].
  rewrite Hp in Hr. clear - Hr.
  unfold report_of, contrast_loops in Hr. revert Hr.
  generalize (calculate_contrast rt). intros f. cbn.
  repeat match goal with
         | |- context [f ?a ?b] => destruct (f a b); cbn; [|discriminate]
         end.
  intros [= <-]. reflexivity.
Qed.

Lemma analyze_contrast_red_keys_witness :
  exists (report : Dict.t entry) self',
    color_palette self' = red_palette /\
    Dict.keys report =
    ["texto-claro sobre primary"; "texto-claro sobre secondary";
     "texto-claro sobre primary-dark"; "texto-escuro sobre primary";
     "texto-escuro sobre secondary"; "texto-escuro sobre primary-dark"].
Proof.
  do 2 eexists.
  eapply (analyze_contrast_red_keys red_runtime (adapter_with [(255, 0, 0)])).
  - reflexivity.
  - reflexivity.
  - vm_compute. reflexivity.
Defined.

(** ** What the analysis can raise *)

Lemma digits_exc l acc seen prev e :
  Str.digits l acc seen prev = Exc e -> e = ValueError.
Proof.
  revert acc seen prev.
  induction l as [|c l IH]; intros acc seen prev; cbn.
  - destruct (prev || (seen =? 0)%nat); now intros [= <-].
  - destruct (Ascii.eqb c "_").
    + destruct prev; [now intros [= <-] | apply IH].
    + destruct (Str.digit_value c); [apply IH | now intros [= <-]].
Qed.

Lemma int16_exc s e : Str.int16 s = Exc e -> e = ValueError.
Proof.
  unfold Str.int16.
  destruct (match Str.strip (list_ascii_of_string s) with
            | [] => _ | _ => _ end) as [neg l].
  match goal with
  | |- match ?l' with [] => _ | _ => _ end = _ -> _ => generalize l'
  end.
  intros l'.
  assert (H : (z <-- Str.digits l' 0 0 false ;; Val (if neg then - z else z))
              = Exc e -> e = ValueError).
  { destruct (Str.digits l' 0 0 false) eqn:Hd; cbn; [discriminate|].
    intros [= <-]. exact (digits_exc _ _ _ _ _ Hd). }
  destruct l' as [|c l'']; [exact H|].
  destruct c as [[] [] [] [] [] [] [] []]; try exact H; now intros [= <-].
Qed.

Lemma get_luminance_exc rt hex e :
  get_luminance rt hex = Exc e -> e = ValueError.
Proof.
  unfold get_luminance.
  destruct (Str.int16 (Str.slice 1 3 hex)) eqn:H1; cbn;
    [|intros [= <-]; exact (int16_exc _ _ H1)].
  destruct (Str.int16 (Str.slice 3 5 hex)) eqn:H2; cbn;
    [|intros [= <-]; exact (int16_exc _ _ H2)].
  destruct (Str.int16 (Str.slice 5 7 hex)) eqn:H3; cbn;
    [discriminate | intros [= <-]; exact (int16_exc _ _ H3)].
Qed.










(** * Further properties *)

(** ** Colour strings *)

Lemma two_digits : all_below 256 two_digits_ok = true.
Proof. vm_compute. reflexivity. Qed.

Lemma format_02x_gamut z :
  0 <= z <= 255 ->
  exists a b,
    Str.format_02x z = String a (String b EmptyString) /\
    is_lower_hex a = true /\ is_lower_hex b = true /\
    Str.int16 (String a (String b EmptyString)) = Val z.
Proof.
  intros Hz.
  pose proof (all_below_spec 256 two_digits_ok two_digits z ltac:(lia)) as H.
  unfold two_digits_ok in H.
  destruct (Str.format_02x z) as [|a [|b [|]]]; try discriminate.
  exists a, b. apply andb_prop in H as [H H3]. apply andb_prop in H as [H1 H2].
  destruct (Str.int16 (String a (String b EmptyString))) as [z'|];
    [|discriminate].
  apply Z.eqb_eq in H3. subst z'. auto.
Qed.

(** X1: the string of a colour whose channels lie in 0..255 is [#]
    followed by six lowercase hexadecimal digits. *)
Theorem _rgb_to_hex_is_hex_color c :
  in_gamut c -> is_hex_color (_rgb_to_hex c) = true.
Proof.
  destruct c as [[r g] b]. intros (Hr & Hg & Hb).
  destruct (format_02x_gamut r Hr) as (r1 & r2 & Er & Hr1 & Hr2 & _).
  destruct (format_02x_gamut g Hg) as (g1 & g2 & Eg & Hg1 & Hg2 & _).
  destruct (format_02x_gamut b Hb) as (b1 & b2 & Eb & Hb1 & Hb2 & _).
  unfold _rgb_to_hex, is_hex_color. rewrite Er, Eg, Eb. cbn.
  now rewrite Hr1, Hr2, Hg1, Hg2, Hb1, Hb2.
Qed.

Lemma _rgb_to_hex_is_hex_color_witness :
  is_hex_color (_rgb_to_hex (200, 100, 50)) = true.
Proof. apply _rgb_to_hex_is_hex_color. cbn. lia. Defined.

Lemma _rgb_to_hex_slices r g b :
  in_gamut (r, g, b) ->
  Str.int16 (Str.slice 1 3 (_rgb_to_hex (r, g, b))) = Val r /\
  Str.int16 (Str.slice 3 5 (_rgb_to_hex (r, g, b))) = Val g /\
  Str.int16 (Str.slice 5 7 (_rgb_to_hex (r, g, b))) = Val b.
Proof.
  intros (Hr & Hg & Hb).
  destruct (format_02x_gamut r Hr) as (r1 & r2 & Er & _ & _ & Ir).
  destruct (format_02x_gamut g Hg) as (g1 & g2 & Eg & _ & _ & Ig).
  destruct (format_02x_gamut b Hb) as (b1 & b2 & Eb & _ & _ & Ib).
  unfold _rgb_to_hex. rewrite Er, Eg, Eb.
  unfold Str.slice. cbn [append substring Nat.sub].
  auto.
Qed.

(** X2: reading the three pairs of digits of the string of a colour of
    the gamut with [int(_, 16)], as [get_luminance] and
    [visualize_palette] do, gives the channels back; so two colours of
    the gamut with the same string are the same colour. *)
Theorem _rgb_to_hex_round_trip r g b :
  in_gamut (r, g, b) ->
  Str.int16 (Str.slice 1 3 (_rgb_to_hex (r, g, b))) = Val r /\
  Str.int16 (Str.slice 3 5 (_rgb_to_hex (r, g, b))) = Val g /\
  Str.int16 (Str.slice 5 7 (_rgb_to_hex (r, g, b))) = Val b /\
  forall c, in_gamut c -> _rgb_to_hex c = _rgb_to_hex (r, g, b) ->
            c = (r, g, b).
Proof.
  intros Hc. destruct (_rgb_to_hex_slices r g b Hc) as (H1 & H2 & H3).
  split; [exact H1|]. split; [exact H2|]. split; [exact H3|].
  intros [[r' g'] b'] Hc' E.
  destruct (_rgb_to_hex_slices r' g' b' Hc') as (H1' & H2' & H3').
  rewrite E in H1', H2', H3'. congruence.
Qed.

Lemma _rgb_to_hex_round_trip_witness :
  Str.int16 (Str.slice 1 3 (_rgb_to_hex (200, 100, 50))) = Val 200 /\
  Str.int16 (Str.slice 3 5 (_rgb_to_hex (200, 100, 50))) = Val 100 /\
  Str.int16 (Str.slice 5 7 (_rgb_to_hex (200, 100, 50))) = Val 50 /\
  forall c, in_gamut c -> _rgb_to_hex c = _rgb_to_hex (200, 100, 50) ->
            c = (200, 100, 50).
Proof. apply (_rgb_to_hex_round_trip 200 100 50). cbn. lia. Defined.

(** X3: on the string of a colour of the gamut [get_luminance] does not
    raise: it is the weighted sum of the linearised channels of that
    colour. *)
Theorem get_luminance_of_hex rt r g b :
  in_gamut (r, g, b) ->
  get_luminance rt (_rgb_to_hex (r, g, b))
  = Val (0.2126 * linearize rt (channel r)
         + 0.7152 * linearize rt (channel g)
         + 0.0722 * linearize rt (channel b))%float.
Proof.
  intros Hc. destruct (_rgb_to_hex_slices r g b Hc) as (H1 & H2 & H3).
  unfold get_luminance. rewrite H1, H2, H3. reflexivity.
Qed.

Lemma get_luminance_of_hex_witness :
  get_luminance red_runtime (_rgb_to_hex (200, 100, 50))
  = Val (0.2126 * linearize red_runtime (channel 200)
         + 0.7152 * linearize red_runtime (channel 100)
         + 0.0722 * linearize red_runtime (channel 50))%float.
Proof. apply (get_luminance_of_hex red_runtime 200 100 50). cbn. lia. Defined.

(** X4: on the bar of a colour of the gamut the label is white when the
    channels add up to less than 380, and black otherwise. *)
Theorem label_color_of_hex r g b :
  in_gamut (r, g, b) ->
  label_color (_rgb_to_hex (r, g, b))
  = Val (if r + g + b <? 380 then "white" else "black").
Proof.
  intros Hc. destruct (_rgb_to_hex_slices r g b Hc) as (H1 & H2 & H3).
  unfold label_color, channel_sum. rewrite H1, H2, H3. reflexivity.
Qed.

Lemma label_color_of_hex_witness :
  label_color (_rgb_to_hex (200, 100, 50))
  = Val (if 200 + 100 + 50 <? 380 then "white" else "black").
Proof. apply (label_color_of_hex 200 100 50). cbn. lia. Defined.

(** ** generate_scss_variables *)

Lemma append_assoc (a b c : string) : (a ++ b) ++ c = a ++ (b ++ c).
Proof. induction a as [|x a IH]; cbn; [reflexivity | now rewrite IH]. Qed.

Lemma append_nil_r (a : string) : a ++ "" = a.
Proof. induction a as [|x a IH]; cbn; [reflexivity | now rewrite IH]. Qed.

Lemma fold_left_lines (palette : Dict.t string) (acc : string) :
  fold_left (fun acc kv => acc ++ scss_line kv) palette acc
  = acc ++ fold_right (fun kv rest => scss_line kv ++ rest) "" palette.
Proof.
  revert acc. induction palette as [|kv palette IH]; intros acc; cbn.
  - now rewrite append_nil_r.
  - now rewrite IH, append_assoc.
Qed.


(** ** Order of floats, continued *)

Lemma SFcompare_Gt_Lt a b :
  SFcompare a b = Some Gt -> SFcompare b a = Some Lt.
Proof.
  destruct a as [sa|sa| |sa ma ea], b as [sb|sb| |sb mb eb]; cbn;
    try discriminate; try (destruct sa; discriminate);
    try (destruct sb; discriminate);
    try (destruct sa, sb; (discriminate || reflexivity)).
  change (PosDef.Pos.compare_cont Eq ma mb) with (Pos.compare ma mb).
  change (PosDef.Pos.compare_cont Eq mb ma) with (Pos.compare mb ma).
  rewrite (Z.compare_antisym ea eb), (Pos.compare_antisym ma mb).
  destruct sa, sb; try discriminate; try reflexivity;
    destruct (Z.compare ea eb); cbn; try discriminate; try reflexivity;
    destruct (Pos.compare ma mb); cbn; (discriminate || reflexivity).
Qed.

Lemma SFcompare_Eq a b :
  SFcompare a b = Some Eq ->
  a = b \/ exists sa sb, a = S754_zero sa /\ b = S754_zero sb.
Proof.
  destruct a as [sa|sa| |sa ma ea], b as [sb|sb| |sb mb eb]; cbn;
    try discriminate; try (destruct sa; discriminate);
    try (destruct sb; discriminate).
  - intros _. right. now exists sa, sb.
  - destruct sa, sb; try discriminate; now left.
  - change (PosDef.Pos.compare_cont Eq ma mb) with (Pos.compare ma mb).
    destruct sa, sb; try discriminate;
      destruct (Z.compare_spec ea eb); try discriminate;
      destruct (Pos.compare_spec ma mb); try discriminate;
      intros _; left; congruence.
Qed.

Lemma is_nan_spec x : is_nan x = false -> Prim2SF x <> S754_nan.
Proof.
  unfold is_nan. rewrite FloatAxioms.eqb_spec. intros H E.
  rewrite E in H. discriminate H.
Qed.

Lemma ltb_asym x y : (x <? y)%float = true -> (y <? x)%float = false.
Proof.
  rewrite !FloatAxioms.ltb_spec. unfold SFltb.
  destruct (SFcompare (Prim2SF x) (Prim2SF y)) as [[]|] eqn:H;
    try discriminate.
  intros _. now rewrite (SFcompare_Lt_Gt _ _ H).
Qed.

Lemma ltb_leb x y : (x <? y)%float = true -> (x <=? y)%float = true.
Proof.
  rewrite FloatAxioms.ltb_spec, FloatAxioms.leb_spec. unfold SFltb, SFleb.
  now destruct (SFcompare (Prim2SF x) (Prim2SF y)) as [[]|].
Qed.

Lemma Prim2SF_inj x y : Prim2SF x = Prim2SF y -> x = y.
Proof.
  intros H. rewrite <- (SF2Prim_Prim2SF x), <- (SF2Prim_Prim2SF y).
  now rewrite H.
Qed.

(** Two numbers neither of which is below the other give the same sum
    with 0.05: they are equal, or the two zeros. *)
Lemma add_005_unordered x y :
  is_nan x = false -> is_nan y = false ->
  (x <? y)%float = false -> (y <? x)%float = false ->
  (x + 0.05 = y + 0.05)%float.
Proof.
  intros Hx Hy. apply is_nan_spec in Hx, Hy.
  rewrite !FloatAxioms.ltb_spec. unfold SFltb. intros Hxy Hyx.
  apply Prim2SF_inj. rewrite !FloatAxioms.add_spec.
  destruct (SFcompare (Prim2SF x) (Prim2SF y)) as [[]|] eqn:Hc;
    try discriminate.
  - destruct (SFcompare_Eq _ _ Hc) as [->|(sa & sb & -> & ->)];
      reflexivity.
  - rewrite (SFcompare_Gt_Lt _ _ Hc) in Hyx. discriminate.
  - exfalso. destruct (Prim2SF x), (Prim2SF y);
      cbn in Hc; congruence.
Qed.

(** ** calculate_contrast *)

(** X6: the contrast of two colours does not depend on their order, as
    long as their luminances are numbers: the larger luminance goes on
    top either way, and both orders raise the same exception if one is
    raised. *)
Theorem calculate_contrast_sym rt a b :
  (forall l, get_luminance rt a = Val l -> is_nan l = false) ->
  (forall l, get_luminance rt b = Val l -> is_nan l = false) ->
  calculate_contrast rt a b = calculate_contrast rt b a.
Proof.
  intros Ha Hb. unfold calculate_contrast.
  destruct (get_luminance rt a) as [la|ea] eqn:Ea,
           (get_luminance rt b) as [lb|eb] eqn:Eb; cbn [rbind];
    try reflexivity.
  - specialize (Ha la eq_refl). specialize (Hb lb eq_refl).
    destruct (lb <? la)%float eqn:H1.
    + now rewrite (ltb_asym _ _ H1).
    + destruct (la <? lb)%float eqn:H2; [reflexivity|].
      now rewrite (add_005_unordered la lb Ha Hb H2 H1).
  - apply get_luminance_exc in Ea, Eb. congruence.
Qed.

Lemma calculate_contrast_sym_witness :
  calculate_contrast red_runtime "#f0f0f0" "#ff0000"
  = calculate_contrast red_runtime "#ff0000" "#f0f0f0".
Proof.
  apply (calculate_contrast_sym red_runtime "#f0f0f0" "#ff0000").
  - intros l H. vm_compute in H. injection H as <-. reflexivity.
  - intros l H. vm_compute in H. injection H as <-. reflexivity.
Defined.

(** ** _adjust_brightness *)

Lemma SFcompare_refl a : a <> S754_nan -> SFcompare a a = Some Eq.
Proof.
  destruct a as [s|s| |s m e]; cbn; try congruence; intros _.
  - now destruct s.
  - change (PosDef.Pos.compare_cont Eq m m) with (Pos.compare m m).
    rewrite Z.compare_refl, Pos.compare_refl. now destruct s.
Qed.

Lemma is_nan_true x : is_nan x = true -> Prim2SF x = S754_nan.
Proof.
  unfold is_nan. rewrite FloatAxioms.eqb_spec. unfold SFeqb. intros H.
  destruct (Prim2SF x) as [s|s| |s m e] eqn:E; try reflexivity; exfalso;
    rewrite SFcompare_refl in H by discriminate; discriminate H.
Qed.

Lemma clamp01_range x :
  (0 <=? Py.clamp01 x)%float = true /\ (Py.clamp01 x <=? 1)%float = true /\
  (is_nan x = true -> Py.clamp01 x = 1%float).
Proof.
  unfold Py.clamp01. split; [|split].
  - destruct (x <? 1)%float; [|reflexivity].
    destruct (0 <? x)%float eqn:H; [now apply ltb_leb | reflexivity].
  - destruct (x <? 1)%float eqn:H1; [|reflexivity].
    destruct (0 <? x)%float; [now apply ltb_leb | reflexivity].
  - intros Hn. apply is_nan_true in Hn.
    assert (H : (x <? 1)%float = false).
    { rewrite FloatAxioms.ltb_spec, Hn. reflexivity. }
    now rewrite H.
Qed.

(** X7: [_adjust_brightness] keeps the hue and the saturation of the
    colour and converts with a value that it has clamped: whatever the
    colour and the factor, the value lies between 0 and 1 and is a
    number (a value that is not a number becomes 1). *)
Theorem _adjust_brightness_clamped c factor :
  exists v,
    _adjust_brightness c factor = rgb_of_hsv (hue c) (saturation c) v /\
    (0 <=? v)%float = true /\ (v <=? 1)%float = true /\
    (is_nan (value c + factor)%float = true -> v = 1%float).
Proof.
  exists (Py.clamp01 (value c + factor)%float).
  split; [apply _adjust_brightness_eq | apply clamp01_range].
Qed.

Lemma _adjust_brightness_clamped_witness :
  exists v,
    _adjust_brightness (200, 100, 50) (-0.3)%float
    = rgb_of_hsv (hue (200, 100, 50)) (saturation (200, 100, 50)) v /\
    (0 <=? v)%float = true /\ (v <=? 1)%float = true /\
    (is_nan (value (200, 100, 50)%Z + -0.3)%float = true -> v = 1%float).
Proof. exact (_adjust_brightness_clamped (200, 100, 50) (-0.3)%float). Defined.

(** ** The palette that generation returns *)

Lemma generate_color_palette_shape rt self palette self' :
  generate_color_palette rt self = Ok palette self' ->
  exists c cs d,
    dominant_colors self' = c :: cs /\
    derived_colors c = Val d /\
    palette = palette_of c cs d /\
    color_palette self' = palette.
Proof.
  assert (Hne : forall s c cs, dominant_colors s = c :: cs ->
            generate_color_palette rt s = Ok palette self' ->
            exists c cs d,
              dominant_colors self' = c :: cs /\
              derived_colors c = Val d /\
              palette = palette_of c cs d /\
              color_palette self' = palette).
  { intros s c cs Hs. rewrite (generate_color_palette_nonempty rt s c cs Hs).
    destruct (derived_colors c) as [d|] eqn:Hd; [|discriminate].
    remember (palette_of c cs d) as p eqn:Hp.
    intros [= <- <-]. exists c, cs, d. subst p. auto. }
  destruct (dominant_colors self) as [|c cs] eqn:Hdom.
  - rewrite (generate_color_palette_empty rt self Hdom).
    destruct (extract_dominant_colors rt 5 self) as [[|c cs] s1|e s1] eqn:Hex;
      try discriminate.
    apply extract_dominant_colors_state in Hex.
    apply (Hne s1 c cs). now subst s1.
  - apply (Hne self c cs Hdom).
Qed.

Lemma keys_palette_of c cs d :
  Dict.keys (palette_of c cs d)
  = List.app base_roles
      (map (fun i => "additional-" ++ str_of_nat i)
           (seq 1 (Nat.min 3 (List.length cs)))).
Proof.
  destruct d as [[[sec dark] light] acc].
  destruct cs as [|c1 [|c2 [|c3 cs]]]; reflexivity.
Qed.

(** X8: the palette that generation returns has the eight base roles in
    the order primary, primary-dark, primary-light, secondary, accent,
    gray-light, gray-medium, gray-dark, followed by additional-1 up to
    additional-[k] and no other key, where [k] is the number of dominant
    colours after the first, 3 at most. *)
Theorem generate_color_palette_keys rt self palette self' :
  generate_color_palette rt self = Ok palette self' ->
  Dict.keys palette
  = List.app base_roles
      (map (fun i => "additional-" ++ str_of_nat i)
           (seq 1 (Nat.min 3 (List.length (dominant_colors self') - 1)))).
Proof.
  intros H.
  destruct (generate_color_palette_shape rt self palette self' H)
    as (c & cs & d & Hdom & _ & -> & _).
  rewrite Hdom, keys_palette_of. cbn [List.length Nat.sub].
  now rewrite Nat.sub_0_r.
Qed.

Lemma generate_color_palette_keys_witness :
  Dict.keys (palette_of (200, 100, 50) [(1, 2, 3); (4, 5, 6)]
               ((50, 149, 200), (123, 61, 30), (255, 127, 63), (74, 200, 50)))
  = List.app base_roles
      (map (fun i => "additional-" ++ str_of_nat i)
           (seq 1 (Nat.min 3
              (List.length
                 (dominant_colors
                    (set_color_palette
                       (palette_of (200, 100, 50) [(1, 2, 3); (4, 5, 6)]
                          ((50, 149, 200), (123, 61, 30), (255, 127, 63),
                           (74, 200, 50)))
                       (adapter_with [(200, 100, 50); (1, 2, 3); (4, 5, 6)])))
               - 1)))).
Proof.
  apply (generate_color_palette_keys red_runtime
           (adapter_with [(200, 100, 50); (1, 2, 3); (4, 5, 6)])).
  vm_compute. reflexivity.
Defined.

Lemma get_set_same {V} (d : Dict.t V) k v : Dict.get (Dict.set d k v) k = Some v.
Proof.
  induction d as [|[k0 v0] d IH]; cbn.
  - now rewrite String.eqb_refl.
  - destruct (String.eqb_spec k0 k) as [->|Hne]; cbn.
    + now rewrite String.eqb_refl.
    + destruct (String.eqb_spec k0 k); [contradiction | exact IH].
Qed.

(** X9: the palette names the first dominant colour primary and the
    next three additional-1 to additional-3, each by its own string,
    untransformed; dominant colours after the fourth do not reach the
    palette. *)
Theorem generate_color_palette_additional rt self palette self' :
  generate_color_palette rt self = Ok palette self' ->
  (forall i, (i < 4)%nat -> (i < List.length (dominant_colors self'))%nat ->
     Dict.get palette
       (match i with
        | O => "primary"
        | _ => "additional-" ++ str_of_nat i
        end)
     = Some (_rgb_to_hex (nth i (dominant_colors self') (0, 0, 0)))) /\
  (forall other,
     firstn 4 (dominant_colors other) = firstn 4 (dominant_colors self') ->
     exists other',
       generate_color_palette rt other = Ok palette other').
Proof.
  intros H.
  destruct (generate_color_palette_shape rt self palette self' H)
    as (c & cs & d & Hdom & Hd & -> & _).
  rewrite Hdom. split.
  - intros i Hi Hlen. destruct d as [[[sec dark] light] acc].
    destruct i as [|[|[|[|i]]]]; [| | | |lia].
    + now rewrite get_palette_of by reflexivity.
    + destruct cs as [|c1 cs]; [cbn in Hlen; lia|].
      destruct cs as [|c2 [|c3 cs]]; reflexivity.
    + destruct cs as [|c1 [|c2 cs]]; try (cbn in Hlen; lia).
      destruct cs as [|c3 cs]; reflexivity.
    + destruct cs as [|c1 [|c2 [|c3 cs]]]; try (cbn in Hlen; lia).
      reflexivity.
  - intros other Ho.
    destruct (dominant_colors other) as [|c' cs'] eqn:Hdo; [discriminate Ho|].
    change (c' :: firstn 3 cs' = c :: firstn 3 cs) in Ho.
    assert (Hc : c' = c) by congruence.
    assert (Ht : firstn 3 cs' = firstn 3 cs)
      by exact (f_equal (@tl rgb) Ho).
    subst c'.
    rewrite (generate_color_palette_nonempty rt other c cs' Hdo), Hd.
    eexists. f_equal. unfold palette_of.
    destruct d as [[[sec dark] light] acc]. now rewrite Ht.
Qed.

Lemma generate_color_palette_additional_witness :
  exists palette self',
    generate_color_palette red_runtime
      (adapter_with [(200, 100, 50); (1, 2, 3); (4, 5, 6); (7, 8, 9);
                     (10, 11, 12)])
    = Ok palette self' /\
    (forall i, (i < 4)%nat -> (i < List.length (dominant_colors self'))%nat ->
       Dict.get palette
         (match i with
          | O => "primary"
          | _ => "additional-" ++ str_of_nat i
          end)
       = Some (_rgb_to_hex (nth i (dominant_colors self') (0, 0, 0)))) /\
    (forall other,
       firstn 4 (dominant_colors other) = firstn 4 (dominant_colors self') ->
       exists other',
         generate_color_palette red_runtime other = Ok palette other').
Proof.
  do 2 eexists. split; [vm_compute; reflexivity|].
  eapply (generate_color_palette_additional red_runtime
            (adapter_with [(200, 100, 50); (1, 2, 3); (4, 5, 6); (7, 8, 9);
                           (10, 11, 12)])).
  vm_compute. reflexivity.
Defined.

(** X10: with dominant colours stored, generation calls no library: its
    outcome is the same under every runtime. When it returns, it has
    replaced the palette, whatever it was, and changed nothing else;
    when it raises, the palette and the rest of the adapter are as
    before. *)
Theorem generate_color_palette_cached rt self :
  dominant_colors self <> [] ->
  (forall rt', generate_color_palette rt' self = generate_color_palette rt self) /\
  (forall stale,
     generate_color_palette rt (set_color_palette stale self) =
     match generate_color_palette rt self with
     | Ok palette _ => Ok palette (set_color_palette palette self)
     | Raise e _ => Raise e (set_color_palette stale self)
     end) /\
  match generate_color_palette rt self with
  | Ok palette self' => self' = set_color_palette palette self
  | Raise _ self' => self' = self
  end.
Proof.
  intros Hne. destruct (dominant_colors self) as [|c cs] eqn:Hdom;
    [congruence|].
  split; [|split].
  - intros rt'.
    now rewrite !(generate_color_palette_nonempty _ self c cs Hdom).
  - intros stale.
    rewrite (generate_color_palette_nonempty rt self c cs Hdom).
    rewrite (generate_color_palette_nonempty rt (set_color_palette stale self)
               c cs Hdom).
    destruct (derived_colors c); reflexivity.
  - rewrite (generate_color_palette_nonempty rt self c cs Hdom).
    destruct (derived_colors c); reflexivity.
Qed.

Lemma generate_color_palette_cached_witness :
  (forall rt', generate_color_palette rt' (adapter_with [(200, 100, 50)])
               = generate_color_palette red_runtime
                   (adapter_with [(200, 100, 50)])) /\
  (forall stale,
     generate_color_palette red_runtime
       (set_color_palette stale (adapter_with [(200, 100, 50)])) =
     match generate_color_palette red_runtime
             (adapter_with [(200, 100, 50)]) with
     | Ok palette _ =>
         Ok palette (set_color_palette palette (adapter_with [(200, 100, 50)]))
     | Raise e _ =>
         Raise e (set_color_palette stale (adapter_with [(200, 100, 50)]))
     end) /\
  match generate_color_palette red_runtime (adapter_with [(200, 100, 50)]) with
  | Ok palette self' =>
      self' = set_color_palette palette (adapter_with [(200, 100, 50)])
  | Raise _ self' => self' = adapter_with [(200, 100, 50)]
  end.
Proof.
  apply (generate_color_palette_cached red_runtime
           (adapter_with [(200, 100, 50)])).
  discriminate.
Defined.

(** ** The report *)

(** X11: on a palette that is not empty the analysis reads the adapter
    and writes nothing: the adapter is unchanged whether it returns or
    raises, and two adapters with the same palette get the same report
    or the same exception. *)
Theorem analyze_contrast_read_only rt self other :
  color_palette self <> [] ->
  color_palette other = color_palette self ->
  match analyze_contrast rt self, analyze_contrast rt other with
  | Ok report self', Ok report' other' =>
      report' = report /\ self' = self /\ other' = other
  | Raise e self', Raise e' other' =>
      e' = e /\ self' = self /\ other' = other
  | _, _ => False
  end.
Proof.
  intros Hne Ho. rewrite !analyze_contrast_eq, Ho.
  destruct (color_palette self) as [|kv pal]; [congruence|].
  unfold lift. destruct (report_of rt (kv :: pal)); auto.
Qed.

Lemma analyze_contrast_read_only_witness :
  match analyze_contrast red_runtime
          (set_color_palette red_palette (adapter_with [(255, 0, 0)])),
        analyze_contrast red_runtime
          (set_color_palette red_palette (new_adapter "other.png" [])) with
  | Ok report self', Ok report' other' =>
      report' = report /\
      self' = set_color_palette red_palette (adapter_with [(255, 0, 0)]) /\
      other' = set_color_palette red_palette (new_adapter "other.png" [])
  | Raise e self', Raise e' other' =>
      e' = e /\
      self' = set_color_palette red_palette (adapter_with [(255, 0, 0)]) /\
      other' = set_color_palette red_palette (new_adapter "other.png" [])
  | _, _ => False
  end.
Proof.
  apply (analyze_contrast_read_only red_runtime
           (set_color_palette red_palette (adapter_with [(255, 0, 0)]))
           (set_color_palette red_palette (new_adapter "other.png" []))).
  - discriminate.
  - reflexivity.
Defined.

Lemma in_keys_set {V} (d : Dict.t V) k v k' :
  In k' (Dict.keys (Dict.set d k v)) -> k' = k \/ In k' (Dict.keys d).
Proof.
  unfold Dict.keys. induction d as [|[k0 v0] d IH]; cbn.
  - intros [<-|[]]. now left.
  - destruct (String.eqb_spec k0 k) as [->|Hne]; cbn.
    + intros [<-|H]; [now left | right; now right].
    + intros [<-|H]; [right; now left|].
      destruct (IH H) as [?|?]; [now left | right; now right].
Qed.

Lemma NoDup_keys_set {V} (d : Dict.t V) k v :
  NoDup (Dict.keys d) -> NoDup (Dict.keys (Dict.set d k v)).
Proof.
  unfold Dict.keys. induction d as [|[k0 v0] d IH]; cbn; intros Hd.
  - constructor; [intros [] | constructor].
  - inversion Hd as [|x l Hnin Hd']; subst.
    destruct (String.eqb_spec k0 k) as [->|Hne]; cbn.
    + now constructor.
    + constructor; [|now apply IH].
      intros Hin. apply (in_keys_set d k v k0) in Hin as [?|?];
        [congruence | contradiction].
Qed.

Lemma length_set {V} (d : Dict.t V) k v :
  (List.length (Dict.set d k v) <= S (List.length d))%nat.
Proof.
  induction d as [|[k0 v0] d IH]; cbn; [lia|].
  destruct (String.eqb k0 k); cbn; lia.
Qed.

Lemma for_each_length {A V} (n : nat) (l : list A)
      (body : A -> Dict.t V -> result (Dict.t V)) :
  (forall x acc acc', body x acc = Val acc' ->
                      (List.length acc' <= List.length acc + n)%nat) ->
  forall acc r, for_each l body acc = Val r ->
                (List.length r <= List.length acc + n * List.length l)%nat.
Proof.
  intros Hbody. induction l as [|x l IH]; intros acc r; cbn.
  - intros [= <-]. lia.
  - destruct (body x acc) as [acc'|e] eqn:Hx; cbn; [|discriminate].
    intros H. specialize (IH acc' r H). specialize (Hbody x acc acc' Hx). lia.
Qed.

Lemma first_key_of_in palette color name :
  first_key_of palette color = Val name -> In (name, color) palette.
Proof.
  unfold first_key_of.
  destruct (filter _ palette) as [|[k v] l] eqn:Hf; [discriminate|].
  intros [= <-].
  assert (H : In (k, v) (filter (fun kv => String.eqb (snd kv) color) palette))
    by (rewrite Hf; now left).
  apply filter_In in H as [Hin Hv]. cbn in Hv.
  apply String.eqb_eq in Hv. now subst v.
Qed.

(** X12: a report never has more than eight entries, and no key twice.
    Every key is ["texto-claro"] or ["texto-escuro"], [" sobre "] and the
    name of a key of the palette, which holds one of the four background
    colours; it need not be one of the four background roles. *)
Theorem analyze_contrast_report_shape rt self report self' :
  analyze_contrast rt self = Ok report self' ->
  (List.length report <= 8)%nat /\
  NoDup (Dict.keys report) /\
  forall key e, In (key, e) report ->
    exists text_name bg_name bg_role color,
      key = text_name ++ " sobre " ++ bg_name /\
      (text_name = "texto-claro" \/ text_name = "texto-escuro") /\
      In bg_role ["primary"; "secondary"; "primary-light"; "primary-dark"] /\
      Dict.get (color_palette self') bg_role = Some color /\
      In (bg_name, color) (color_palette self').
Proof.
  intros Hok. apply analyze_contrast_ok in Hok.
  set (palette := color_palette self') in *. clearbody palette.
  unfold report_of in Hok.
  destruct (Dict.getitem palette "gray-light") as [gl|] eqn:Hgl; [|discriminate].
  destruct (Dict.getitem palette "gray-dark") as [gd|] eqn:Hgd; [|discriminate].
  destruct (Dict.getitem palette "primary") as [p|] eqn:Hp; [|discriminate].
  destruct (Dict.getitem palette "secondary") as [s|] eqn:Hs; [|discriminate].
  destruct (Dict.getitem palette "primary-light") as [pl|] eqn:Hpl; [|discriminate].
  destruct (Dict.getitem palette "primary-dark") as [pd|] eqn:Hpd; [|discriminate].
  cbn [rbind] in Hok. apply getitem_val in Hp, Hs, Hpl, Hpd.
  unfold contrast_loops in Hok. rewrite Hgl in Hok.
  split; [|split].
  - change 8%nat with (List.length (@nil (string * entry)) + 4 * 2)%nat.
    revert Hok. apply for_each_length. intros text acc acc'. cbn [rbind].
    intros H.
    change (List.length acc + 4)%nat
      with (List.length acc + 1 * List.length [p; s; pl; pd])%nat.
    revert H. apply for_each_length. intros bg a a'.
    destruct (first_key_of palette bg); [|discriminate]. cbn [rbind].
    destruct (calculate_contrast rt text bg); [|discriminate]. cbn [rbind].
    intros [= <-]. etransitivity; [apply length_set | lia].
  - revert Hok.
    apply (for_each_invariant (fun acc : Dict.t entry => NoDup (Dict.keys acc)));
      [|constructor].
    intros text acc acc' _ Hacc. cbn [rbind].
    apply (for_each_invariant (fun acc : Dict.t entry => NoDup (Dict.keys acc)));
      [|exact Hacc].
    intros bg a a' _ Ha.
    destruct (first_key_of palette bg); [|discriminate]. cbn [rbind].
    destruct (calculate_contrast rt text bg); [|discriminate]. cbn [rbind].
    intros [= <-]. now apply NoDup_keys_set.
  - set (I := fun acc : Dict.t entry =>
      forall key e, In (key, e) acc ->
      exists text_name bg_name bg_role color,
        key = text_name ++ " sobre " ++ bg_name /\
        (text_name = "texto-claro" \/ text_name = "texto-escuro") /\
        In bg_role ["primary"; "secondary"; "primary-light"; "primary-dark"] /\
        Dict.get palette bg_role = Some color /\
        In (bg_name, color) palette).
    change (I report). revert Hok.
    apply (for_each_invariant I); [|intros ? ? []].
    intros text acc acc' _ Hacc. cbn [rbind].
    apply (for_each_invariant I); [|exact Hacc].
    intros bg a a' Hbg Ha.
    destruct (first_key_of palette bg) as [name|] eqn:Hname; [|discriminate].
    cbn [rbind].
    destruct (calculate_contrast rt text bg); [|discriminate]. cbn [rbind].
    intros [= <-] key e Hin.
    apply in_set in Hin as [[-> _]|Hin]; [|exact (Ha key e Hin)].
    assert (Hrole : exists role,
      In role ["primary"; "secondary"; "primary-light"; "primary-dark"] /\
      Dict.get palette role = Some bg).
    { destruct Hbg as [<-|[<-|[<-|[<-|[]]]]];
        [exists "primary" | exists "secondary" | exists "primary-light"
         | exists "primary-dark"];
        (split; [cbn; tauto | assumption]). }
    destruct Hrole as (role & Hrole & Hget).
    exists (if String.eqb text gl then "texto-claro" else "texto-escuro"),
      name, role, bg.
    split; [reflexivity|]. split; [destruct (String.eqb text gl); auto|].
    split; [exact Hrole|]. split; [exact Hget|].
    now apply first_key_of_in.
Qed.

Lemma analyze_contrast_report_shape_witness :
  exists report self',
    analyze_contrast red_runtime (adapter_with [(255, 0, 0)])
    = Ok report self' /\
    (List.length report <= 8)%nat /\
    NoDup (Dict.keys report) /\
    forall key e, In (key, e) report ->
      exists text_name bg_name bg_role color,
        key = text_name ++ " sobre " ++ bg_name /\
        (text_name = "texto-claro" \/ text_name = "texto-escuro") /\
        In bg_role ["primary"; "secondary"; "primary-light"; "primary-dark"] /\
        Dict.get (color_palette self') bg_role = Some color /\
        In (bg_name, color) (color_palette self').
Proof.
  do 2 eexists. split; [vm_compute; reflexivity|].
  eapply (analyze_contrast_report_shape red_runtime
            (adapter_with [(255, 0, 0)])).
  vm_compute. reflexivity.
Defined.

(** X13: the report has all eight entries, one per pair of a text role
    and a background role and named after it, as soon as the two text
    colours differ and every background role is the first key of the
    palette that holds its colour. *)
Theorem analyze_contrast_report_complete rt self report self' :
  analyze_contrast rt self = Ok report self' ->
  Dict.get (color_palette self') "gray-dark"
  <> Dict.get (color_palette self') "gray-light" ->
  (forall role color,
     In role ["primary"; "secondary"; "primary-light"; "primary-dark"] ->
     Dict.get (color_palette self') role = Some color ->
     first_key_of (color_palette self') color = Val role) ->
  Dict.keys report =
  ["texto-claro sobre primary"; "texto-claro sobre secondary";
   "texto-claro sobre primary-light"; "texto-claro sobre primary-dark";
   "texto-escuro sobre primary"; "texto-escuro sobre secondary";
   "texto-escuro sobre primary-light"; "texto-escuro sobre primary-dark"].
Proof.
  intros Hok. apply analyze_contrast_ok in Hok.
  set (palette := color_palette self') in *. clearbody palette.
  intros Htext Hfirst. unfold report_of in Hok.
  destruct (Dict.getitem palette "gray-light") as [gl|] eqn:Hgl; [|discriminate].
  destruct (Dict.getitem palette "gray-dark") as [gd|] eqn:Hgd; [|discriminate].
  destruct (Dict.getitem palette "primary") as [p|] eqn:Hp; [|discriminate].
  destruct (Dict.getitem palette "secondary") as [s|] eqn:Hs; [|discriminate].
  destruct (Dict.getitem palette "primary-light") as [pl|] eqn:Hpl; [|discriminate].
  destruct (Dict.getitem palette "primary-dark") as [pd|] eqn:Hpd; [|discriminate].
  cbn [rbind] in Hok. unfold contrast_loops in Hok. rewrite Hgl in Hok.
  apply getitem_val in Hgl, Hgd, Hp, Hs, Hpl, Hpd.
  assert (Hne : String.eqb gd gl = false).
  { apply String.eqb_neq. intros ->. apply Htext. now rewrite Hgl, Hgd. }
  pose proof (Hfirst "primary" p ltac:(cbn; tauto) Hp) as Fp.
  pose proof (Hfirst "secondary" s ltac:(cbn; tauto) Hs) as Fs.
  pose proof (Hfirst "primary-light" pl ltac:(cbn; tauto) Hpl) as Fpl.
  pose proof (Hfirst "primary-dark" pd ltac:(cbn; tauto) Hpd) as Fpd.
  revert Hok. cbn [for_each rbind].
  rewrite Fp, Fs, Fpl, Fpd, String.eqb_refl, Hne. cbn [rbind].
  generalize (calculate_contrast rt). intros f.
  repeat match goal with
         | |- context [f ?a ?b] => destruct (f a b); cbn; [|discriminate]
         end.
  intros [= <-]. reflexivity.
Qed.

Lemma analyze_contrast_report_complete_witness :
  exists (report : Dict.t entry) self',
    analyze_contrast red_runtime (adapter_with [(200, 100, 50)])
    = Ok report self' /\
    Dict.keys report =
    ["texto-claro sobre primary"; "texto-claro sobre secondary";
     "texto-claro sobre primary-light"; "texto-claro sobre primary-dark";
     "texto-escuro sobre primary"; "texto-escuro sobre secondary";
     "texto-escuro sobre primary-light"; "texto-escuro sobre primary-dark"].
Proof.
  do 2 eexists. split; [vm_compute; reflexivity|].
  eapply (analyze_contrast_report_complete red_runtime
            (adapter_with [(200, 100, 50)])).
  - vm_compute. reflexivity.
  - discriminate.
  - intros role color [<-|[<-|[<-|[<-|[]]]]] H;
      vm_compute in H; injection H as <-; reflexivity.
Defined.

(** ** Extraction, continued *)

(** X14: extraction returns as many colours as k-means gave centres, or
    as many as the largest label in use plus one if that is less: never
    more colours than centres, and none when no pixel is labelled. *)
Theorem extract_dominant_colors_count rt n self dominant self' :
  extract_dominant_colors rt n self = Ok dominant self' ->
  exists colors labels,
    KMeans_fit rt n 42 10
      (np.reshape3 (cv2_resize rt (logo_image self) (100, 100)))
    = Val (colors, labels) /\
    List.length dominant
    = Nat.min (List.length colors)
              (match labels with
               | [] => 0%nat
               | _ => S (fold_right Nat.max 0%nat labels)
               end).
Proof.
  intros H.
  destruct (extract_dominant_colors_length rt n self dominant self' H)
    as (colors & labels & Hfit & Hlen & Hbin).
  exists colors, labels. split; [exact Hfit|]. now rewrite Hlen, Hbin.
Qed.

Lemma extract_dominant_colors_count_witness :
  exists colors labels,
    KMeans_fit red_runtime 5 42 10
      (np.reshape3 (cv2_resize red_runtime
         (logo_image (new_adapter "logo.png" red_logo)) (100, 100)))
    = Val (colors, labels) /\
    List.length [(255, 0, 0)]
    = Nat.min (List.length colors)
              (match labels with
               | [] => 0%nat
               | _ => S (fold_right Nat.max 0%nat labels)
               end).
Proof.
  apply (extract_dominant_colors_count red_runtime 5
           (new_adapter "logo.png" red_logo) [(255, 0, 0)]
           (adapter_with [(255, 0, 0)])).
  vm_compute. reflexivity.
Defined.

(** X15: the first colour that extraction returns, which generation
    takes as primary, is the truncated centre of the largest count, and
    of several centres of that count the one k-means listed first. *)
Theorem extract_dominant_colors_first rt n self c cs self' :
  extract_dominant_colors rt n self = Ok (c :: cs) self' ->
  exists colors labels top later,
    KMeans_fit rt n 42 10
      (np.reshape3 (cv2_resize rt (logo_image self) (100, 100)))
    = Val (colors, labels) /\
    c = to_int3 top /\
    (forall y, In y (combine colors (np.bincount labels)) ->
               snd y <= snd top) /\
    filter (has_count (snd top)) (combine colors (np.bincount labels))
    = top :: later.
Proof.
  rewrite extract_dominant_colors_eq.
  destruct (KMeans_fit rt n 42 10 _) as [[colors labels]|e]; [|discriminate].
  cbv zeta.
  pose proof (sort_by_count_desc_perm
                (combine colors (np.bincount labels))) as Hperm.
  pose proof (sort_by_count_desc_sorted
                (combine colors (np.bincount labels))) as Hsort.
  pose proof (fun k => sort_by_count_desc_stable k
                (combine colors (np.bincount labels))) as Hstable.
  destruct (sort_by_count_desc (combine colors (np.bincount labels)))
    as [|top ranked]; [discriminate|].
  intros H. assert (Hc : c = to_int3 top) by (cbn [map] in H; congruence).
  exists colors, labels, top, (filter (has_count (snd top)) ranked).
  split; [reflexivity|]. split; [exact Hc|]. split.
  - intros y Hy. apply (Permutation_in _ (Permutation_sym Hperm)) in Hy.
    destruct Hy as [<-|Hy]; [lia|].
    inversion Hsort as [|x l _ Hall]; subst.
    rewrite Forall_forall in Hall. exact (Hall y Hy).
  - rewrite <- Hstable. cbn [filter]. now rewrite has_count_refl.
Qed.

Lemma extract_dominant_colors_first_witness :
  exists colors labels top later,
    KMeans_fit four_color_runtime 4 42 10
      (np.reshape3 (cv2_resize four_color_runtime
         (logo_image (new_adapter "logo.png" four_color_logo)) (100, 100)))
    = Val (colors, labels) /\
    (20, 0, 0) = to_int3 top /\
    (forall y, In y (combine colors (np.bincount labels)) ->
               snd y <= snd top) /\
    filter (has_count (snd top)) (combine colors (np.bincount labels))
    = top :: later.
Proof.
  apply (extract_dominant_colors_first four_color_runtime 4
           (new_adapter "logo.png" four_color_logo) (20, 0, 0)
           [(30, 0, 0); (10, 0, 0); (40, 0, 0)]
           (set_dominant_colors
              [(20, 0, 0); (30, 0, 0); (10, 0, 0); (40, 0, 0)]
              (new_adapter "logo.png" four_color_logo))).
  vm_compute. reflexivity.
Defined.

(** ** Truncation of the centres *)

Lemma digits2_pos_bound m : Zpos m < 2 ^ Zpos (digits2_pos m).
Proof.
  induction m as [m IH|m IH|]; cbn [digits2_pos].
  - rewrite Pos2Z.inj_succ, Z.pow_succ_r by lia. lia.
  - rewrite Pos2Z.inj_succ, Z.pow_succ_r by lia. lia.
  - reflexivity.
Qed.

Lemma valid_mantissa s m e :
  valid_binary (S754_finite s m e) = true -> Zpos m < 9007199254740992.
Proof.
  cbn. unfold bounded, canonical_mantissa, fexp. intros H.
  apply andb_prop in H as [H _]. apply Z.eqb_eq in H.
  pose proof (digits2_pos_bound m) as Hm.
  assert (Hd : Zpos (digits2_pos m) <= 53) by (unfold FloatOps.prec in *; lia).
  pose proof (Z.pow_le_mono_r 2 (Zpos (digits2_pos m)) 53 ltac:(lia) Hd) as Hp.
  change (2 ^ 53) with 9007199254740992 in Hp. lia.
Qed.

Lemma SFltb_256 m e :
  SFltb (S754_finite false m e) (S754_finite false 4503599627370496 (-44)) = true ->
  e < -44 \/ (e = -44 /\ Zpos m < 4503599627370496).
Proof.
  unfold SFltb, SFcompare.
  destruct (Z.compare_spec e (-44)) as [He|He|He]; try discriminate.
  - rewrite Pos.compare_cont_spec. cbn [Pos.switch_Eq].
    destruct (Pos.compare_spec m 4503599627370496) as [|Hm|]; try discriminate.
    intros _. right. split; [assumption | exact Hm].
  - intros _. now left.
Qed.

Lemma finite_is_finite x s m e :
  Prim2SF x = S754_finite s m e -> is_nan x = false /\ is_infinity x = false.
Proof.
  intros E. unfold is_nan, is_infinity.
  rewrite !FloatAxioms.eqb_spec, FloatAxioms.abs_spec, E.
  change (Prim2SF infinity) with (S754_infinity false).
  unfold SFeqb. rewrite SFcompare_refl by discriminate. split; reflexivity.
Qed.

Lemma zero_is_finite x s :
  Prim2SF x = S754_zero s -> is_nan x = false /\ is_infinity x = false.
Proof.
  intros E. unfold is_nan, is_infinity.
  rewrite !FloatAxioms.eqb_spec, FloatAxioms.abs_spec, E.
  change (Prim2SF infinity) with (S754_infinity false).
  split; reflexivity.
Qed.

(** The truncation of a float of [0, 256) is a channel of 8 bits. *)
Lemma trunc_byte x :
  (0 <=? x)%float = true -> (x <? 256)%float = true ->
  is_nan x = false /\ is_infinity x = false /\ 0 <= Py.trunc x <= 255.
Proof.
  rewrite FloatAxioms.leb_spec, FloatAxioms.ltb_spec.
  change (Prim2SF 0) with (S754_zero false).
  change (Prim2SF 256) with (S754_finite false 4503599627370496 (-44)).
  pose proof (Prim2SF_valid x) as Hv. unfold Py.trunc.
  destruct (Prim2SF x) as [s|s| |s m e] eqn:E.
  - intros _ _. destruct (zero_is_finite x s E). repeat split; (assumption || lia).
  - destruct s; discriminate.
  - discriminate.
  - destruct s; [discriminate|]. intros _ Hlt.
    destruct (finite_is_finite x false m e E) as [Hn Hi].
    split; [exact Hn|]. split; [exact Hi|].
    apply valid_mantissa in Hv. apply SFltb_256 in Hlt.
    assert (He : e < 0) by lia.
    destruct (Z.leb_spec 0 e); [lia|].
    rewrite Z.shiftr_div_pow2 by lia.
    assert (Hpow : 0 < 2 ^ (- e)) by (apply Z.pow_pos_nonneg; lia).
    split; [apply Z.div_pos; lia|].
    assert (Z.pos m / 2 ^ (- e) < 256); [|lia].
    apply Z.div_lt_upper_bound; [exact Hpow|].
    destruct Hlt as [Hlt|[-> Hm]].
    + assert (2 ^ 45 <= 2 ^ (- e)) by (apply Z.pow_le_mono_r; lia).
      change (2 ^ 45) with 35184372088832 in *. lia.
    + change (2 ^ (- -44)) with 17592186044416. lia.
Qed.

Lemma astype_int_byte x :
  (0 <=? x)%float = true -> (x <? 256)%float = true ->
  0 <= np.astype_int x <= 255.
Proof.
  intros H0 H1. destruct (trunc_byte x H0 H1) as (Hn & Hi & Hz).
  unfold np.astype_int. rewrite Hn, Hi. cbn [orb].
  destruct (Z.leb_spec (- 2 ^ 63) (Py.trunc x)),
           (Z.ltb_spec (Py.trunc x) (2 ^ 63)); cbn [andb]; lia.
Qed.

(** X16: when the centres that k-means returns have their coordinates in
    [0, 256), as means of 8-bit pixels have, every colour that extraction
    returns has its three channels in 0..255. *)
Theorem extract_dominant_colors_gamut rt n self dominant self' colors labels :
  extract_dominant_colors rt n self = Ok dominant self' ->
  KMeans_fit rt n 42 10
    (np.reshape3 (cv2_resize rt (logo_image self) (100, 100)))
  = Val (colors, labels) ->
  forallb centre_in_range colors = true ->
  Forall in_gamut dominant.
Proof.
  rewrite extract_dominant_colors_eq. intros H Hfit Hrange.
  rewrite Hfit in H. cbv zeta in H. injection H as <- _.
  rewrite Forall_forall. intros c Hc.
  apply in_map_iff in Hc as (cc & <- & Hcc).
  apply (Permutation_in _ (sort_by_count_desc_perm _)) in Hcc.
  destruct cc as [[[x y] z] k]. apply in_combine_l in Hcc.
  rewrite forallb_forall in Hrange. specialize (Hrange _ Hcc).
  cbn in Hrange. rewrite !andb_true_iff in Hrange.
  destruct Hrange as ([Hx0 Hx1] & [Hy0 Hy1] & [Hz0 Hz1] & _).
  unfold to_int3, in_gamut. cbn [fst].
  repeat split; now apply astype_int_byte.
Qed.

Lemma extract_dominant_colors_gamut_witness :
  Forall in_gamut [(20, 0, 0); (30, 0, 0); (10, 0, 0); (40, 0, 0)].
Proof.
  apply (extract_dominant_colors_gamut four_color_runtime 4
           (new_adapter "logo.png" four_color_logo) _
           (set_dominant_colors
              [(20, 0, 0); (30, 0, 0); (10, 0, 0); (40, 0, 0)]
              (new_adapter "logo.png" four_color_logo))
           [(10, 0, 0); (20, 0, 0); (30, 0, 0); (40, 0, 0)]%float
           [0; 1; 1; 2; 2; 3]%nat).
  - vm_compute. reflexivity.
  - reflexivity.
  - vm_compute. reflexivity.
Defined.

(** ** The steps of the script, one after the other *)

Lemma palette_of_nonempty c cs d : palette_of c cs d <> [].
Proof.
  intros H. apply (f_equal Dict.keys) in H.
  rewrite keys_palette_of in H. discriminate H.
Qed.

Lemma generate_scss_variables_nonempty rt self :
  color_palette self <> [] ->
  generate_scss_variables rt self = Ok (scss_of (color_palette self)) self.
Proof.
  intros Hne. unfold generate_scss_variables, scss_of.
  unfold bind at 1. unfold get_self at 1. unfold bind at 1.
  destruct (color_palette self) as [|kv pal] eqn:Hpal; [congruence|].
  unfold ret at 1, bind, get_self, ret. now rewrite Hpal, fold_left_lines.
Qed.

(** X17: the steps compose as the script at the end of the file runs
    them. Once extraction has returned colours and generation a palette,
    the palette is the one of the extracted colours, its primary entry
    being the first of them; the analysis and the SCSS text that follow
    work on that palette, neither generating nor extracting again, and
    leave the adapter alone. *)
Theorem extract_generate_analyze rt n self c cs self1 palette self2 :
  extract_dominant_colors rt n self = Ok (c :: cs) self1 ->
  generate_color_palette rt self1 = Ok palette self2 ->
  self2 = set_color_palette palette (set_dominant_colors (c :: cs) self) /\
  (exists d, derived_colors c = Val d /\ palette = palette_of c cs d) /\
  Dict.get palette "primary" = Some (_rgb_to_hex c) /\
  analyze_contrast rt self2 = lift (report_of rt palette) self2 /\
  generate_scss_variables rt self2 = Ok (scss_of palette) self2.
Proof.
  intros Hex Hgen. apply extract_dominant_colors_state in Hex. subst self1.
  rewrite (generate_color_palette_nonempty rt
             (set_dominant_colors (c :: cs) self) c cs eq_refl) in Hgen.
  destruct (derived_colors c) as [d|] eqn:Hd; [|discriminate].
  remember (palette_of c cs d) as p eqn:Hp.
  injection Hgen as <- <-.
  split; [reflexivity|]. split; [exists d; now split|].
  assert (Hne : p <> []) by (subst p; apply palette_of_nonempty).
  split; [subst p; now rewrite get_palette_of by reflexivity;
          destruct d as [[[? ?] ?] ?]|].
  split.
  - rewrite analyze_contrast_eq. cbn [color_palette set_color_palette].
    destruct p; [congruence | reflexivity].
  - now rewrite generate_scss_variables_nonempty.
Qed.

Lemma extract_generate_analyze_witness :
  exists palette self2,
    generate_color_palette red_runtime (adapter_with [(255, 0, 0)])
    = Ok palette self2 /\
    self2 = set_color_palette palette
              (set_dominant_colors [(255, 0, 0)]
                 (new_adapter "logo.png" red_logo)) /\
    (exists d, derived_colors (255, 0, 0) = Val d /\
               palette = palette_of (255, 0, 0) [] d) /\
    Dict.get palette "primary" = Some (_rgb_to_hex (255, 0, 0)) /\
    analyze_contrast red_runtime self2
    = lift (report_of red_runtime palette) self2 /\
    generate_scss_variables red_runtime self2 = Ok (scss_of palette) self2.
Proof.
  do 2 eexists. split; [vm_compute; reflexivity|].
  eapply (extract_generate_analyze red_runtime 6
            (new_adapter "logo.png" red_logo) (255, 0, 0) []).
  - vm_compute. reflexivity.
  - vm_compute. reflexivity.
Defined.

(** ** The linear branch of the luminance *)

Lemma linear_branches : all_below 256 linear_branch_ok = true.
Proof. vm_compute. reflexivity. Qed.

(** X18: of the 256 channel values, those up to 10 are linearised by the
    division by 12.92 and those from 11 on by the power law: the power
    function is never called for a channel below 11, and the luminance
    of a colour whose channels are all below 11 does not depend on it. *)
Theorem linearize_channel rt k :
  0 <= k <= 255 ->
  linearize rt (channel k) =
  if k <=? 10 then (channel k / 12.92)%float
  else float_pow rt ((channel k + 0.055) / 1.055)%float 2.4%float.
Proof.
  intros Hk.
  pose proof (all_below_spec 256 linear_branch_ok linear_branches k
                ltac:(lia)) as H.
  unfold linear_branch_ok in H. apply Bool.eqb_prop in H.
  unfold linearize. now rewrite H.
Qed.

Lemma linearize_channel_witness :
  linearize red_runtime (channel 10) =
  if 10 <=? 10 then (channel 10 / 12.92)%float
  else float_pow red_runtime ((channel 10 + 0.055) / 1.055)%float 2.4%float.
Proof. apply (linearize_channel red_runtime 10). lia. Defined.
